(** * d2cli: multi-board rendering, link resolution and pagination

    A shallow embedding of [d2cli/main.go]: the board tree, the link
    resolver [resolveLinks], the link rewriter [relink], the pagination
    indexer [buildBoardIdToIndex], the hierarchical renderer [render] with
    its per-board pipeline [_render], the paginated builders [renderPDF] and
    [renderPPTX], and the driver [compile].

    Go strings are byte sequences and are modelled by [string]; Go maps are
    [gmap]s; Go functions returning [(value, error)] return a pair or a
    [result]; the file system and the document writers are modelled by an
    explicit trace of effects that every function threads through. *)

From stdpp Require Import gmap strings list fin_maps.
From Stdlib Require Import ZArith Ascii.

#[local] Open Scope string_scope.
#[local] Open Scope list_scope.
#[local] Set Warnings "-clear-no-such-hyp".

(** ** Errors *)

(** Go's [error] values.  [Combined] is what [multierr.Combine] builds from
    two non-nil errors. *)
Inductive error : Type :=
  | Err (msg : string)
  | Combined (e1 e2 : error).

(** A Go result [(v, err)] in which [v] is meaningless when [err != nil]. *)
Inductive result (A : Type) : Type :=
  | Ok (a : A)
  | Fail (e : error).
Arguments Ok {A} a.
Arguments Fail {A} e.

(** [multierr.Combine(e1, e2)]: nil errors are dropped. *)
Definition multierr_Combine (e1 e2 : option error) : option error :=
  match e1, e2 with
  | None, None => None
  | Some e, None => Some e
  | None, Some e => Some e
  | Some a, Some b => Some (Combined a b)
  end.

(** ** Strings and paths (Go's [strings] and Unix [path/filepath]) *)

Module GoStrings.

(** [strings.Join(elems, sep)]. *)
Definition Join (elems : list string) (sep : string) : string :=
  String.concat sep elems.

(** [strings.HasSuffix(s, suffix)]. *)
Definition HasSuffix (s suffix : string) : bool :=
  (String.length suffix <=? String.length s)%nat &&
  String.eqb
    (String.substring (String.length s - String.length suffix)
               (String.length suffix) s)
    suffix.

(** [strings.TrimSuffix(s, suffix)]. *)
Definition TrimSuffix (s suffix : string) : string :=
  if HasSuffix s suffix
  then String.substring 0 (String.length s - String.length suffix) s
  else s.

End GoStrings.

Module Filepath.

Definition Separator : ascii := "/"%char.

Definition IsPathSeparator (c : ascii) : bool := Ascii.eqb c Separator.

(** The loop of [filepath.Ext]: [i] counts down from [len(path)]; the byte
    inspected is [path[i-1]]. *)
Fixpoint Ext_loop (path : string) (i : nat) : string :=
  match i with
  | O => ""
  | S j =>
      match String.get j path with
      | Some c =>
          if IsPathSeparator c then ""
          else if Ascii.eqb c "."%char
               then String.substring j (String.length path - j) path
               else Ext_loop path j
      | None => ""
      end
  end.

(** [filepath.Ext(path)]: the suffix beginning at the final dot of the
    final element of [path]; empty if there is no dot. *)
Definition Ext (path : string) : string :=
  Ext_loop path (String.length path).

(** The elements of a path between separators; a path with [n] separators
    has [n + 1] elements, some of which may be empty. *)
Fixpoint elements (path : string) : list string :=
  match path with
  | EmptyString => [""]
  | String c rest =>
      if IsPathSeparator c then "" :: elements rest
      else match elements rest with
           | e :: es => String c e :: es
           | [] => [String c ""]
           end
  end.

Definition rooted (path : string) : bool :=
  match path with
  | String c _ => IsPathSeparator c
  | EmptyString => false
  end.

(** One iteration of the loop of [filepath.Clean], on whole elements.  The
    output buffer is kept as the stack [out] of the elements written so
    far, most recent first.  An empty element and a [.] element are
    skipped; a [..] element removes the last real element when there is
    one, is dropped at the root of a rooted path, and is kept otherwise. *)
Definition Clean_step (isRooted : bool) (out : list string) (elem : string)
  : list string :=
  if decide (elem = "") then out
  else if decide (elem = ".") then out
  else if decide (elem = "..") then
    match out with
    | top :: below =>
        if decide (top = "..") then
          (if isRooted then out else ".." :: out)
        else below
    | [] => if isRooted then [] else [".."]
    end
  else elem :: out.

Definition Clean_stack (path : string) : list string :=
  fold_left (Clean_step (rooted path)) (elements path) [].

Definition render_path (isRooted : bool) (out : list string) : string :=
  (if isRooted then "/" else "") +:+ String.concat "/" (rev out).

(** [filepath.Clean(path)] on Unix (no volume names). *)
Definition Clean (path : string) : string :=
  if decide (path = "") then "."
  else
    let out := Clean_stack path in
    match out, rooted path with
    | [], false => "."
    | _, r => render_path r out
    end.

(** [filepath.Join(elem...)]: from the first non-empty element on, the
    elements are joined by the separator and the result is cleaned; when all
    elements are empty the result is the empty string. *)
Fixpoint Join (elem : list string) : string :=
  match elem with
  | [] => ""
  | e :: rest =>
      if decide (e <> "") then Clean (String.concat "/" elem)
      else Join rest
  end.

(** [filepath.Base(path)]: the last element of the path, trailing
    separators removed: the last non-empty element, [.] for the empty path
    and the separator for a path of separators only. *)
Definition Base (path : string) : string :=
  if decide (path = "") then "."
  else
    match filter (fun e => e <> "") (elements path) with
    | [] => "/"
    | es => List.last es ""
    end.

(** The loop of [filepath.Dir]: [i] counts down from [len(path)] to just
    after the last separator. *)
Fixpoint Dir_loop (path : string) (i : nat) : nat :=
  match i with
  | O => O
  | S j =>
      match String.get j path with
      | Some c => if IsPathSeparator c then i else Dir_loop path j
      | None => Dir_loop path j
      end
  end.

(** [filepath.Dir(path)]: everything up to the last separator, cleaned. *)
Definition Dir (path : string) : string :=
  Clean (String.substring 0 (Dir_loop path (String.length path)) path).

End Filepath.

(** ** The board tree ([d2target.Diagram]) *)

(** The fields of [d2target.Shape] that [main.go] reads or writes. *)
Record Shape : Type := mkShape {
  ID : string;
  Link : string;
  PosX : Z;
  PosY : Z;
  Width : Z;
  Height : Z;
  StrokeWidth : Z;
}.

Definition setLink (s : Shape) (v : string) : Shape :=
  {| ID := ID s; Link := v; PosX := PosX s; PosY := PosY s;
     Width := Width s; Height := Height s; StrokeWidth := StrokeWidth s |}.

(** A board with the fields of [d2target.Diagram] that [main.go] uses
    ([rootFill] is [Root.Fill]).  The children are pointers in Go; the model
    is a tree, no board is shared between two parents. *)
#[local] Unset Elimination Schemes.
Inductive Diagram : Type :=
  mkDiagram (name : string) (isFolderOnly : bool) (rootFill : string)
            (shapes : list Shape)
            (layers scenarios steps : list Diagram).
#[local] Set Elimination Schemes.

Definition Name (d : Diagram) : string :=
  match d with mkDiagram n _ _ _ _ _ _ => n end.
Definition IsFolderOnly (d : Diagram) : bool :=
  match d with mkDiagram _ f _ _ _ _ _ => f end.
Definition RootFill (d : Diagram) : string :=
  match d with mkDiagram _ _ r _ _ _ _ => r end.
Definition Shapes (d : Diagram) : list Shape :=
  match d with mkDiagram _ _ _ s _ _ _ => s end.
Definition Layers (d : Diagram) : list Diagram :=
  match d with mkDiagram _ _ _ _ l _ _ => l end.
Definition Scenarios (d : Diagram) : list Diagram :=
  match d with mkDiagram _ _ _ _ _ s _ => s end.
Definition Steps (d : Diagram) : list Diagram :=
  match d with mkDiagram _ _ _ _ _ _ s => s end.

(** Structural induction on board trees: the property may be assumed for
    every child of the three categories. *)
Fixpoint Diagram_ind (P : Diagram -> Prop)
    (step : forall n f r sh ls sc st,
        Forall P ls -> Forall P sc -> Forall P st ->
        P (mkDiagram n f r sh ls sc st))
    (d : Diagram) {struct d} : P d :=
  match d with
  | mkDiagram n f r sh ls sc st =>
      let all := fix all (l : list Diagram) : Forall P l :=
        match l with
        | [] => @List.Forall_nil Diagram P
        | x :: xs => @List.Forall_cons Diagram P x xs (Diagram_ind P step x) (all xs)
        end in
      step n f r sh ls sc st (all ls) (all sc) (all st)
  end.

(** Number of boards of a tree. *)
Fixpoint boardCount (d : Diagram) : nat :=
  match d with
  | mkDiagram _ _ _ _ ls sc st =>
      S (fold_right (fun c n => boardCount c + n)
           (fold_right (fun c n => boardCount c + n)
              (fold_right (fun c n => boardCount c + n) 0 st) sc) ls)
  end.

(** ** Output-path synthesis shared by [resolveLinks] and [render] *)

(** The four-line block
    [ext := filepath.Ext(p); p = strings.TrimSuffix(p, ext);
     p = filepath.Join(p, elem); p += ext]
    that [resolveLinks] and [render] repeat for the board name, for [index]
    and for each category. *)
Definition nestPath (p elem : string) : string :=
  let ext := Filepath.Ext p in
  let p := GoStrings.TrimSuffix p ext in
  let p := Filepath.Join [p; elem] in
  p +:+ ext.

Definition nonEmpty (l : list Diagram) : bool :=
  (0 <? List.length l)%nat.

(** [outputPath] after the [if diagram.Name != ""] block. *)
Definition namedOutputPath (outputPath : string) (diagram : Diagram) : string :=
  if decide (Name diagram <> "") then nestPath outputPath (Name diagram)
  else outputPath.

(** [boardOutputPath] of [resolveLinks]; [outputPath] is the path after the
    name block. *)
Definition boardOutputPath (outputPath : string) (diagram : Diagram) : string :=
  if nonEmpty (Layers diagram) || nonEmpty (Scenarios diagram)
     || nonEmpty (Steps diagram)
  then nestPath outputPath "index"
  else outputPath.

Definition layersOutputPath (outputPath : string) (diagram : Diagram) : string :=
  if nonEmpty (Scenarios diagram) || nonEmpty (Steps diagram)
  then nestPath outputPath "layers"
  else outputPath.

Definition scenariosOutputPath (outputPath : string) (diagram : Diagram) : string :=
  if nonEmpty (Layers diagram) || nonEmpty (Steps diagram)
  then nestPath outputPath "scenarios"
  else outputPath.

Definition stepsOutputPath (outputPath : string) (diagram : Diagram) : string :=
  if nonEmpty (Layers diagram) || nonEmpty (Scenarios diagram)
  then nestPath outputPath "steps"
  else outputPath.

(** ** The Link Resolver *)

Section ResolveLoop.
Variable rec : string -> string -> Diagram -> result (gmap string string).
Variables currDiagramPath category childOutputPath : string.

(** One [for _, dl := range boards] loop of [resolveLinks]: recurse into
    each child, stop at the first error, copy the child's entries into
    [linkToOutput] (a later entry overwrites an earlier one). *)
Fixpoint resolveChildren (boards : list Diagram)
    (linkToOutput : gmap string string) : result (gmap string string) :=
  match boards with
  | [] => Ok linkToOutput
  | dl :: rest =>
      match rec (GoStrings.Join [currDiagramPath; category; Name dl] ".")
                childOutputPath dl with
      | Fail e => Fail e
      | Ok m => resolveChildren rest (m ∪ linkToOutput)
      end
  end.
End ResolveLoop.

Fixpoint resolveLinks (currDiagramPath outputPath : string)
    (diagram : Diagram) {struct diagram} : result (gmap string string) :=
  match diagram with
  | mkDiagram _ _ _ _ layers scenarios steps =>
      let outputPath := namedOutputPath outputPath diagram in
      let linkToOutput : gmap string string :=
        {[ currDiagramPath := boardOutputPath outputPath diagram ]} in
      match resolveChildren resolveLinks currDiagramPath "layers"
              (layersOutputPath outputPath diagram) layers linkToOutput with
      | Fail e => Fail e
      | Ok linkToOutput =>
          match resolveChildren resolveLinks currDiagramPath "scenarios"
                  (scenariosOutputPath outputPath diagram) scenarios
                  linkToOutput with
          | Fail e => Fail e
          | Ok linkToOutput =>
              match resolveChildren resolveLinks currDiagramPath "steps"
                      (stepsOutputPath outputPath diagram) steps
                      linkToOutput with
              | Fail e => Fail e
              | Ok linkToOutput => Ok linkToOutput
              end
          end
      end
  end.

(** ** The Pagination Indexer *)

(** [dictionary] is a Go map, shared by reference and updated in place: the
    model threads it through the traversal.  [None] is the nil map.  The
    slices built by [append] may share a backing array, but every call writes
    only at or beyond the length of the slice it was given, so the elements
    a caller reads are never overwritten. *)
Fixpoint buildBoardIdToIndex (diagram : Diagram)
    (dictionary : option (gmap string Z)) (path : list string) {struct diagram}
    : gmap string Z :=
  match diagram with
  | mkDiagram name _ _ _ layers scenarios steps =>
      let newPath := path ++ [name] in
      let '(dictionary, newPath) :=
        match dictionary with
        | None => ((∅ : gmap string Z), <[0%nat := "root"]> newPath)
        | Some dict => (dict, newPath)
        end in
      let key := GoStrings.Join newPath "." in
      let dictionary := <[key := Z.of_nat (size dictionary)]> dictionary in
      let dictionary :=
        fold_left (fun dict dl =>
                     buildBoardIdToIndex dl (Some dict) (newPath ++ ["layers"]))
                  layers dictionary in
      let dictionary :=
        fold_left (fun dict dl =>
                     buildBoardIdToIndex dl (Some dict) (newPath ++ ["scenarios"]))
                  scenarios dictionary in
      let dictionary :=
        fold_left (fun dict dl =>
                     buildBoardIdToIndex dl (Some dict) (newPath ++ ["steps"]))
                  steps dictionary in
      dictionary
  end.

(** ** The link rewriter *)

(** The inner loop of [relink]: range over the entries of the map and stop
    at the first key equal to the link. *)
Fixpoint rangeFind (entries : list (string * string)) (link : string)
  : option string :=
  match entries with
  | [] => None
  | (k, v) :: rest => if String.eqb link k then Some v else rangeFind rest link
  end.

(** The body of [for i, shape := range d.Shapes]. *)
Definition relinkShape (linkToOutput : gmap string string) (shape : Shape)
  : Shape :=
  if decide (Link shape <> "") then
    match rangeFind (map_to_list linkToOutput) (Link shape) with
    | Some v => setLink shape v
    | None => shape
    end
  else shape.

(** [relink] mutates the tree in place; the model returns the tree after
    the call.  Go ranges over the map in an unspecified order, the model
    in the order of [map_to_list]; the keys being distinct, the order does
    not matter ([rangeFind_any_order]). *)
Fixpoint relink (d : Diagram) (linkToOutput : gmap string string) : Diagram :=
  match d with
  | mkDiagram n f r shapes layers scenarios steps =>
      mkDiagram n f r
        (map (relinkShape linkToOutput) shapes)
        (map (fun board => relink board linkToOutput) layers)
        (map (fun board => relink board linkToOutput) scenarios)
        (map (fun board => relink board linkToOutput) steps)
  end.

(** ** Collaborators and effects *)

(** Byte buffers ([[]byte]); nil and the empty buffer are not told apart. *)
Definition bytes : Type := string.

(** [d2svg.RenderOpts]. *)
Record RenderOpts : Type := mkRenderOpts {
  Pad : Z;
  Sketch : bool;
  Center : bool;
  ThemeID : Z;
  DarkThemeID : option Z;
  MasterID : string;
  SetDimensions : bool;
}.

(** A parsed [float64], kept as the text it was parsed from: the code only
    hands these numbers on to the document writers. *)
Inductive float64 : Type := Float64 (text : string).

(** The arguments of [pdf.AddPDFPage] (the page map excepted, which is the
    same at every call). *)
Record PDFPage : Type := mkPDFPage {
  pagePng : bytes;
  pageBoardPath : list string;
  pageThemeID : Z;
  pageRootFill : string;
  pageShapes : list Shape;
  pagePad : Z;
  pageViewboxX : float64;
  pageViewboxY : float64;
}.

(** [pptx.Link] once the loop body is done with it.  The four coordinates
    are floating-point expressions of the shape and the viewbox, which are
    kept instead. *)
Record PPTXLink : Type := mkPPTXLink {
  linkOf : Shape;
  linkViewboxX : float64;
  linkViewboxY : float64;
  Tooltip : string;
  ExternalUrl : string;
  SlideIndex : Z;
}.

(** What the program does to the outside world, in the order it does it.
    A call that can fail carries the error it returned. *)
Inductive event : Type :=
  | EvRender (diagram : Diagram) (opts : RenderOpts)
      (* d2svg.Render(diagram, opts) *)
  | EvRemoveAll (path : string)
      (* os.RemoveAll(path); the code drops its error *)
  | EvMkdirAll (path : string) (err : option error)
  | EvWritePath (path : string) (out : bytes) (err : option error)
      (* ms.WritePath(path, out) *)
  | EvAddPDFPage (page : PDFPage) (err : option error)
  | EvExport (path : string) (err : option error)
      (* pdf.Export(path) *)
  | EvAddSlide (pngImg : bytes) (boardPath : list string) (err : option error)
  | EvAddLink (link : PPTXLink)
  | EvSaveTo (path : string) (err : option error)
      (* presentation.SaveTo(path) *)
  | EvWrap (diagram : Diagram) (boards : list bytes) (opts : RenderOpts)
      (interval : Z).
      (* d2animate.Wrap(diagram, boards, opts, interval) *)

(** The history of effects, most recent first. *)
Definition Trace : Type := list event.

(** The collaborators of [main.go]: the packages it calls and the operating
    system.  The ones that transform data are functions of their arguments;
    the ones that act on the file system or on a document may in addition
    depend on everything that happened before. *)
Record Collaborators : Type := mkCollaborators {
  (* the front end of compile: ms.ReadPath, textmeasure.NewRuler,
     d2lib.Compile, diagram.HashID, plugin.Info,
     d2plugin.FeatureSupportCheck *)
  ReadPath : string -> result bytes;
  NewRuler : option error;
  d2lib_Compile : bytes -> result Diagram;
  HashID : Diagram -> result string;
  plugin_Info : option error;
  FeatureSupportCheck : Diagram -> option error;
  (* the per-board pipeline *)
  d2svg_Render : Diagram -> RenderOpts -> result bytes;
  PostProcess : bytes -> bytes * option error;
  BundleLocal : bytes -> bytes * option error;
  BundleRemote : bytes -> bytes * option error;
  appendix_Append : Diagram -> bytes -> bytes;
  ConvertSVG : bytes -> result bytes;
  AddExif : bytes -> result bytes;
  FindViewboxSlice : bytes -> list string;
  ParseFloat : string -> result float64;
  (* d2parser.ParseKey(link) succeeds with a first path element "root" *)
  ParseKey_isRoot : string -> bool;
  d2animate_Wrap : Diagram -> list bytes -> RenderOpts -> Z -> result bytes;
  (* the file system and the document writers *)
  MkdirAll_err : Trace -> string -> option error;
  WritePath_err : Trace -> string -> bytes -> option error;
  AddPDFPage_err : Trace -> PDFPage -> option error;
  Export_err : Trace -> string -> option error;
  AddSlide_err : Trace -> bytes -> list string -> option error;
  SaveTo_err : Trace -> string -> option error;
}.

(** [path] is [dir] or lies below it. *)
Definition under (dir path : string) : bool :=
  bool_decide (path = dir) || String.prefix (dir +:+ "/") path.

(** The regular files a history leaves on disk (the standard output [-]
    included, as the file of that name). *)
Fixpoint files (w : Trace) : gmap string bytes :=
  match w with
  | [] => ∅
  | EvWritePath path out None :: past => <[path := out]> (files past)
  | EvRemoveAll dir :: past =>
      filter (fun kv => under dir kv.1 = false) (files past)
  | _ :: past => files past
  end.


(** The boards handed to the vector renderer, most recent first. *)
Fixpoint rendered (w : Trace) : list Diagram :=
  match w with
  | [] => []
  | EvRender diagram _ :: past => diagram :: rendered past
  | _ :: past => rendered past
  end.

(** ** The per-board pipeline *)

Definition lastByte (s : bytes) : option ascii :=
  String.get (String.length s - 1) s.

(** The [else] branch of [if toPNG]: a non-empty buffer that does not end in
    a line feed gets one appended. *)
Definition withNewline (out : bytes) : bytes :=
  if (0 <? String.length out)%nat &&
     negb (bool_decide (lastByte out = Some "010"%char))
  then out +:+ String "010"%char ""
  else out.

Section Pipeline.
Variable c : Collaborators.

(** [_render].  The result is the pair the Go function returns.  Inside
    [if toPNG] the variable [svg] is a new one: the buffer returned after
    the block is the one from before it. *)
Definition _render (opts : RenderOpts) (outputPath : string)
    (bundle forceAppendix : bool) (diagram : Diagram) (w : Trace)
  : (bytes * option error) * Trace :=
  let toPNG := bool_decide (Filepath.Ext outputPath = ".png") in
  let ropts := {| Pad := Pad opts; Sketch := Sketch opts;
                  Center := Center opts; ThemeID := ThemeID opts;
                  DarkThemeID := DarkThemeID opts;
                  MasterID := MasterID opts; SetDimensions := toPNG |} in
  let w := EvRender diagram ropts :: w in
  match d2svg_Render c diagram ropts with
  | Fail e => (("", Some e), w)
  | Ok svg =>
      match PostProcess c svg with
      | (svg, Some e) => ((svg, Some e), w)
      | (svg, None) =>
          let '(svg, bundleErr) := BundleLocal c svg in
          let '(svg, bundleErr) :=
            if bundle then
              let '(svg, bundleErr2) := BundleRemote c svg in
              (svg, multierr_Combine bundleErr bundleErr2)
            else (svg, bundleErr) in
          let svg :=
            if forceAppendix && negb toPNG
            then appendix_Append c diagram svg else svg in
          (* out := svg; the conversion yields either an early return or
             the bytes to write together with the bundling error *)
          let converted : (bytes * error) + (bytes * option error) :=
            if toPNG then
              let svg' := appendix_Append c diagram svg in
              let '(svg', bundleErr) :=
                if negb bundle then
                  let '(svg', bundleErr2) := BundleRemote c svg' in
                  (svg', multierr_Combine bundleErr bundleErr2)
                else (svg', bundleErr) in
              match ConvertSVG c svg' with
              | Fail e => inl (svg', e)
              | Ok out =>
                  match AddExif c out with
                  | Fail e => inl (svg', e)
                  | Ok out => inr (out, bundleErr)
                  end
              end
            else inr (withNewline svg, bundleErr) in
          match converted with
          | inl (svg', e) => ((svg', Some e), w)
          | inr (out, bundleErr) =>
              if decide (MasterID opts = "") then
                let dir := Filepath.Dir outputPath in
                let mkErr := MkdirAll_err c w dir in
                let w := EvMkdirAll dir mkErr :: w in
                match mkErr with
                | Some e => ((svg, Some e), w)
                | None =>
                    let wrErr := WritePath_err c w outputPath out in
                    let w := EvWritePath outputPath out wrErr :: w in
                    match wrErr with
                    | Some e => ((svg, Some e), w)
                    | None => ((svg, bundleErr), w)
                    end
                end
              else ((svg, bundleErr), w)
          end
      end
  end.

(** ** The Hierarchical Renderer *)

Section RenderLoop.
Variable rec : string -> Diagram -> Trace
               -> (list bytes * option error) * Trace.
Variable childOutputPath : string.

(** One [for _, dl := range ...] loop of [render]: the first failing
    child ends the loop and the call with [return nil, err]. *)
Fixpoint renderChildren (children : list Diagram) (boards : list bytes)
    (w : Trace) : (list bytes * option error) * Trace :=
  match children with
  | [] => ((boards, None), w)
  | dl :: rest =>
      match rec childOutputPath dl w with
      | ((_, Some e), w) => (([], Some e), w)
      | ((childrenBoards, None), w) =>
          renderChildren rest (boards ++ childrenBoards) w
      end
  end.
End RenderLoop.

(** [render].  The arguments [ctx], [ms], [compileDur], [plugin],
    [inputPath], [page] and [ruler] only reach the collaborators and the
    log, and are left out. *)
Fixpoint render (opts : RenderOpts) (bundle forceAppendix : bool)
    (outputPath : string) (diagram : Diagram) (w : Trace) {struct diagram}
  : (list bytes * option error) * Trace :=
  match diagram with
  | mkDiagram _ isFolderOnly _ _ layers scenarios steps =>
      let outputPath := namedOutputPath outputPath diagram in
      let hasBoards :=
        nonEmpty layers || nonEmpty scenarios || nonEmpty steps in
      if hasBoards && bool_decide (outputPath = "-") then
        (([], Some (Err "multiboard output cannot be written to stdout")), w)
      else
        let w :=
          if hasBoards
          then EvRemoveAll
                 (GoStrings.TrimSuffix outputPath (Filepath.Ext outputPath))
               :: w
          else w in
        let recur := render opts bundle forceAppendix in
        match renderChildren recur (layersOutputPath outputPath diagram)
                layers [] w with
        | ((_, Some e), w) => (([], Some e), w)
        | ((boards, None), w) =>
        match renderChildren recur (scenariosOutputPath outputPath diagram)
                scenarios boards w with
        | ((_, Some e), w) => (([], Some e), w)
        | ((boards, None), w) =>
        match renderChildren recur (stepsOutputPath outputPath diagram)
                steps boards w with
        | ((_, Some e), w) => (([], Some e), w)
        | ((boards, None), w) =>
            if negb isFolderOnly then
              match _render opts (boardOutputPath outputPath diagram)
                      bundle forceAppendix diagram w with
              | ((_, Some e), w) => ((boards, Some e), w)
              | ((out, None), w) => ((out :: boards, None), w)
              end
            else (([], None), w)
        end end end
  end.

(** ** The paginated builders *)

(** [getFileName]. *)
Definition getFileName (path : string) : string :=
  let ext := Filepath.Ext path in
  GoStrings.TrimSuffix (Filepath.Base path) ext.

(** [currBoardPath]: the root board has no name, so the output file name
    stands for it. *)
Definition currBoardPathOf (boardPath : list string) (outputPath : string)
    (diagram : Diagram) : list string :=
  if decide (Name diagram = "")
  then boardPath ++ [getFileName outputPath]
  else boardPath ++ [Name diagram].

(** [diagram.Root.Fill = "transparent"]. *)
Definition transparentRoot (d : Diagram) : Diagram :=
  match d with
  | mkDiagram n f _ sh ls sc st => mkDiagram n f "transparent" sh ls sc st
  end.

(** The options [renderPDF] and [renderPPTX] pass to [d2svg.Render]. *)
Definition rasterOpts (opts : RenderOpts) : RenderOpts :=
  {| Pad := Pad opts; Sketch := Sketch opts; Center := Center opts;
     ThemeID := 0; DarkThemeID := None; MasterID := "";
     SetDimensions := true |}.

(** The non-nil [*pdflib.GoFPDF]; its pages are in the trace. *)
Inductive GoFPDF : Type := pdfHandle.

Section PagedLoop.
Variable rec : Diagram -> Trace -> (bytes * option error) * Trace.

(** One [for _, dl := range ...] loop of [renderPDF] and [renderPPTX]:
    the child's bytes are dropped, its error ends the loop. *)
Fixpoint pagedChildren (children : list Diagram) (w : Trace)
  : option error * Trace :=
  match children with
  | [] => (None, w)
  | dl :: rest =>
      match rec dl w with
      | ((_, Some e), w) => (Some e, w)
      | ((_, None), w) => pagedChildren rest w
      end
  end.
End PagedLoop.

(** The [if !diagram.IsFolderOnly] block of [renderPDF].  [inl] is an
    early return from the function; [inr svg] is the value the named
    result [svg] holds after the block (the buffer [PostProcess] gave:
    the later buffers live in variables of the block). *)
Definition pdfPage (opts : RenderOpts) (currBoardPath : list string)
    (diagram : Diagram) (w : Trace)
  : ((bytes * error) + bytes) * Trace :=
  let rootFill := RootFill diagram in
  let diagram := transparentRoot diagram in
  let w := EvRender diagram (rasterOpts opts) :: w in
  match d2svg_Render c diagram (rasterOpts opts) with
  | Fail e => (inl ("", e), w)
  | Ok svg =>
      match PostProcess c svg with
      | (svg, Some e) => (inl (svg, e), w)
      | (svg, None) =>
          let '(svg1, bundleErr) := BundleLocal c svg in
          let '(svg1, bundleErr2) := BundleRemote c svg1 in
          match multierr_Combine bundleErr bundleErr2 with
          | Some e => (inl (svg1, e), w)
          | None =>
              let svg1 := appendix_Append c diagram svg1 in
              match ConvertSVG c svg1 with
              | Fail e => (inl (svg1, e), w)
              | Ok pngImg =>
                  let viewboxSlice := FindViewboxSlice c svg1 in
                  match ParseFloat c (nth 0 viewboxSlice "") with
                  | Fail e => (inl (svg1, e), w)
                  | Ok viewboxX =>
                      match ParseFloat c (nth 1 viewboxSlice "") with
                      | Fail e => (inl (svg1, e), w)
                      | Ok viewboxY =>
                          let page :=
                            {| pagePng := pngImg;
                               pageBoardPath := currBoardPath;
                               pageThemeID := ThemeID opts;
                               pageRootFill := rootFill;
                               pageShapes := Shapes diagram;
                               pagePad := Pad opts;
                               pageViewboxX := viewboxX;
                               pageViewboxY := viewboxY |} in
                          let err := AddPDFPage_err c w page in
                          let w := EvAddPDFPage page err :: w in
                          match err with
                          | Some e => (inl (svg1, e), w)
                          | None => (inr svg, w)
                          end
                      end
                  end
              end
          end
      end
  end.

(** [renderPDF].  [pdf = None] is the nil handle of the outermost call. *)
Fixpoint renderPDF (opts : RenderOpts) (outputPath : string)
    (diagram : Diagram) (pdf : option GoFPDF) (boardPath : list string)
    (pageMap : gmap string Z) (w : Trace) {struct diagram}
  : (bytes * option error) * Trace :=
  match diagram with
  | mkDiagram _ isFolderOnly _ _ layers scenarios steps =>
      let '(pdf, isRoot) :=
        match pdf with
        | None => (pdfHandle, true)
        | Some h => (h, false)
        end in
      let currBoardPath := currBoardPathOf boardPath outputPath diagram in
      let '(page, w) :=
        if negb isFolderOnly then pdfPage opts currBoardPath diagram w
        else (inr "", w) in
      match page with
      | inl (svg, e) => ((svg, Some e), w)
      | inr svg =>
          let recur := fun dl =>
            renderPDF opts "" dl (Some pdf) currBoardPath pageMap in
          match pagedChildren recur layers w with
          | (Some e, w) => (("", Some e), w)
          | (None, w) =>
          match pagedChildren recur scenarios w with
          | (Some e, w) => (("", Some e), w)
          | (None, w) =>
          match pagedChildren recur steps w with
          | (Some e, w) => (("", Some e), w)
          | (None, w) =>
              if isRoot then
                let err := Export_err c w outputPath in
                let w := EvExport outputPath err :: w in
                match err with
                | Some e => (("", Some e), w)
                | None => ((svg, None), w)
                end
              else ((svg, None), w)
          end end end
      end
  end.

(** The body of [for _, shape := range diagram.Shapes] in [renderPPTX]. *)
Definition pptxLink (boardIdToIndex : gmap string Z)
    (viewboxX viewboxY : float64) (shape : Shape) : list event :=
  if decide (Link shape = "") then []
  else
    let external := negb (ParseKey_isRoot c (Link shape)) in
    [EvAddLink
       {| linkOf := shape; linkViewboxX := viewboxX;
          linkViewboxY := viewboxY; Tooltip := Link shape;
          ExternalUrl := if external then Link shape else "";
          SlideIndex :=
            if external then 0
            else match boardIdToIndex !! Link shape with
                 | Some pageNum => pageNum + 1
                 | None => 0
                 end |}].

(** The [if !diagram.IsFolderOnly] block of [renderPPTX]; every early
    return is [return nil, err]. *)
Definition pptxSlide (opts : RenderOpts) (currBoardPath : list string)
    (boardIdToIndex : gmap string Z) (diagram : Diagram) (w : Trace)
  : (error + bytes) * Trace :=
  let diagram := transparentRoot diagram in
  let w := EvRender diagram (rasterOpts opts) :: w in
  match d2svg_Render c diagram (rasterOpts opts) with
  | Fail e => (inl e, w)
  | Ok svg =>
      match PostProcess c svg with
      | (_, Some e) => (inl e, w)
      | (svg, None) =>
          let '(svg1, bundleErr) := BundleLocal c svg in
          let '(svg1, bundleErr2) := BundleRemote c svg1 in
          match multierr_Combine bundleErr bundleErr2 with
          | Some e => (inl e, w)
          | None =>
              let svg1 := appendix_Append c diagram svg1 in
              match ConvertSVG c svg1 with
              | Fail e => (inl e, w)
              | Ok pngImg =>
                  let err := AddSlide_err c w pngImg currBoardPath in
                  let w := EvAddSlide pngImg currBoardPath err :: w in
                  match err with
                  | Some e => (inl e, w)
                  | None =>
                      let viewboxSlice := FindViewboxSlice c svg1 in
                      match ParseFloat c (nth 0 viewboxSlice "") with
                      | Fail e => (inl e, w)
                      | Ok viewboxX =>
                          match ParseFloat c (nth 1 viewboxSlice "") with
                          | Fail e => (inl e, w)
                          | Ok viewboxY =>
                              (inr svg,
                               rev (flat_map
                                      (pptxLink boardIdToIndex viewboxX viewboxY)
                                      (Shapes diagram)) ++ w)
                          end
                      end
                  end
              end
          end
      end
  end.

(** [renderPPTX]. *)
Fixpoint renderPPTX (opts : RenderOpts) (outputPath : string)
    (diagram : Diagram) (boardPath : list string)
    (boardIdToIndex : gmap string Z) (w : Trace) {struct diagram}
  : (bytes * option error) * Trace :=
  match diagram with
  | mkDiagram _ isFolderOnly _ _ layers scenarios steps =>
      let currBoardPath := currBoardPathOf boardPath outputPath diagram in
      let '(slide, w) :=
        if negb isFolderOnly
        then pptxSlide opts currBoardPath boardIdToIndex diagram w
        else (inr "", w) in
      match slide with
      | inl e => (("", Some e), w)
      | inr svg =>
          let recur := fun dl =>
            renderPPTX opts "" dl currBoardPath boardIdToIndex in
          match pagedChildren recur layers w with
          | (Some e, w) => (("", Some e), w)
          | (None, w) =>
          match pagedChildren recur scenarios w with
          | (Some e, w) => (("", Some e), w)
          | (None, w) =>
          match pagedChildren recur steps w with
          | (Some e, w) => (("", Some e), w)
          | (None, w) => ((svg, None), w)
          end end end
      end
  end.

(** ** The driver *)

Definition withMasterID (opts : RenderOpts) (masterID : string) : RenderOpts :=
  {| Pad := Pad opts; Sketch := Sketch opts; Center := Center opts;
     ThemeID := ThemeID opts; DarkThemeID := DarkThemeID opts;
     MasterID := masterID; SetDimensions := SetDimensions opts |}.

(** What [compile] returns: the bytes, [written] and the error. *)
Definition compiled : Type := (bytes * bool * option error) * Trace.

(** The [default:] case of the switch of [compile], from the compiled
    [diagram] on. *)
Definition compileSVG (renderOpts : RenderOpts) (animateInterval : Z)
    (outputPath : string) (bundle forceAppendix : bool)
    (diagram : Diagram) (w : Trace) : compiled :=
  let resolved : result Diagram :=
    if (animateInterval <=? 0)%Z then
      match resolveLinks "root" outputPath diagram with
      | Fail e => Fail e
      | Ok linkToOutput => Ok (relink diagram linkToOutput)
      end
    else Ok diagram in
  match resolved with
  | Fail e => (("", false, Some e), w)
  | Ok diagram =>
      match render renderOpts bundle forceAppendix outputPath diagram w with
      | ((_, Some e), w) => (("", false, Some e), w)
      | ((boards, None), w) =>
          match boards with
          | [] => (("", true, None), w)
          | out :: _ =>
              if (0 <? animateInterval)%Z then
                let w := EvWrap diagram boards renderOpts animateInterval :: w in
                match d2animate_Wrap c diagram boards renderOpts
                        animateInterval with
                | Fail e => (("", false, Some e), w)
                | Ok out =>
                    let dir := Filepath.Dir outputPath in
                    let mkErr := MkdirAll_err c w dir in
                    let w := EvMkdirAll dir mkErr :: w in
                    match mkErr with
                    | Some e => (("", false, Some e), w)
                    | None =>
                        let wrErr := WritePath_err c w outputPath out in
                        let w := EvWritePath outputPath out wrErr :: w in
                        match wrErr with
                        | Some e => (("", false, Some e), w)
                        | None => ((out, true, None), w)
                        end
                    end
                end
              else ((out, true, None), w)
          end
      end
  end.

(** The part of [compile] before the switch: read the input, compile it to
    a board tree, set the master id for an animation and check the layout
    plugin.  Every failure is [return nil, false, err]. *)
Definition compileFront (renderOpts : RenderOpts) (animateInterval : Z)
    (inputPath : string) : result (Diagram * RenderOpts) :=
  match ReadPath c inputPath with
  | Fail e => Fail e
  | Ok input =>
  match NewRuler c with
  | Some e => Fail e
  | None =>
  match d2lib_Compile c input with
  | Fail e => Fail e
  | Ok diagram =>
  let hashed : result RenderOpts :=
    if (0 <? animateInterval)%Z then
      match HashID c diagram with
      | Fail e => Fail e
      | Ok masterID => Ok (withMasterID renderOpts masterID)
      end
    else Ok renderOpts in
  match hashed with
  | Fail e => Fail e
  | Ok renderOpts =>
  match plugin_Info c with
  | Some e => Fail e
  | None =>
  match FeatureSupportCheck c diagram with
  | Some e => Fail e
  | None => Ok (diagram, renderOpts)
  end end end end end end.

(** [switch filepath.Ext(outputPath)] of [compile]. *)
Definition compileSwitch (renderOpts : RenderOpts) (animateInterval : Z)
    (outputPath : string) (bundle forceAppendix : bool)
    (diagram : Diagram) (w : Trace) : compiled :=
  let ext := Filepath.Ext outputPath in
  if decide (ext = ".pdf") then
    let pageMap := buildBoardIdToIndex diagram None [] in
    match renderPDF renderOpts outputPath diagram None [] pageMap w with
    | ((pdf, Some e), w) => ((pdf, false, Some e), w)
    | ((pdf, None), w) => ((pdf, true, None), w)
    end
  else if decide (ext = ".pptx") then
    let boardIdToIndex := buildBoardIdToIndex diagram None [] in
    match renderPPTX renderOpts outputPath diagram [] boardIdToIndex w with
    | ((_, Some e), w) => (("", false, Some e), w)
    | ((svg, None), w) =>
        let err := SaveTo_err c w outputPath in
        let w := EvSaveTo outputPath err :: w in
        match err with
        | Some e => (("", false, Some e), w)
        | None => ((svg, true, None), w)
        end
    end
  else
    compileSVG renderOpts animateInterval outputPath bundle
      forceAppendix diagram w.

(** [compile].  [page] and the fonts only reach the collaborators. *)
Definition compile (renderOpts : RenderOpts) (animateInterval : Z)
    (inputPath outputPath : string) (bundle forceAppendix : bool)
    (w : Trace) : compiled :=
  match compileFront renderOpts animateInterval inputPath with
  | Fail e => (("", false, Some e), w)
  | Ok (diagram, renderOpts) =>
      compileSwitch renderOpts animateInterval outputPath bundle
        forceAppendix diagram w
  end.

(** The end of [Run]: the message it returns for the outcome of
    [compile]; [None] is the nil error. *)
Definition Run_report (r : compiled) : option string :=
  match r with
  | ((_, written, Some _), _) =>
      if written
      then Some "failed to fully compile (partial render written)"
      else Some "failed to compile"
  | ((_, _, None), _) => None
  end.

End Pipeline.

(** ** Specification-side notions *)

(** The link identifiers of the boards of a tree, in the fixed traversal
    order (the board, then its layers, its scenarios and its steps, depth
    first): [id] for the board itself and [<id>.<category>.<name>] for a
    child.  This follows the specification's words, not the code. *)
Fixpoint linkIdentifiers (id : string) (d : Diagram) : list string :=
  match d with
  | mkDiagram _ _ _ _ layers scenarios steps =>
      id ::
      flat_map (fun c => linkIdentifiers (id +:+ ".layers." +:+ Name c) c) layers ++
      flat_map (fun c => linkIdentifiers (id +:+ ".scenarios." +:+ Name c) c) scenarios ++
      flat_map (fun c => linkIdentifiers (id +:+ ".steps." +:+ Name c) c) steps
  end.

(** The entries the Link Resolver adds, in the order it adds them. *)
Fixpoint linkEntries (id outputPath : string) (d : Diagram)
  : list (string * string) :=
  match d with
  | mkDiagram _ _ _ _ layers scenarios steps =>
      let out := namedOutputPath outputPath d in
      (id, boardOutputPath out d) ::
      flat_map (fun c => linkEntries (id +:+ ".layers." +:+ Name c)
                           (layersOutputPath out d) c) layers ++
      flat_map (fun c => linkEntries (id +:+ ".scenarios." +:+ Name c)
                           (scenariosOutputPath out d) c) scenarios ++
      flat_map (fun c => linkEntries (id +:+ ".steps." +:+ Name c)
                           (stepsOutputPath out d) c) steps
  end.

(** Visiting identifiers in order and giving each the current size of the
    dictionary: what [dictionary[key] = len(dictionary)] does along a
    traversal. *)
Definition assignIndices (ids : list string) (dictionary : gmap string Z)
  : gmap string Z :=
  fold_left (fun dict key => <[key := Z.of_nat (size dict)]> dict)
            ids dictionary.

(** Rewriting every link of a tree by [f] and touching nothing else: the
    shape with the same fields, the link excepted, which is [f] of the old
    one. *)
Definition rewriteShape (f : string -> string) (s : Shape) : Shape :=
  {| ID := ID s; Link := f (Link s); PosX := PosX s; PosY := PosY s;
     Width := Width s; Height := Height s; StrokeWidth := StrokeWidth s |}.

Fixpoint rewriteLinks (f : string -> string) (d : Diagram) : Diagram :=
  match d with
  | mkDiagram n fo r shapes layers scenarios steps =>
      mkDiagram n fo r (map (rewriteShape f) shapes)
        (map (rewriteLinks f) layers)
        (map (rewriteLinks f) scenarios)
        (map (rewriteLinks f) steps)
  end.

Definition leaf (n : string) : Diagram := mkDiagram n false "" [] [] [] [].

(** The recursive calls of the Link Resolver at a board: the identifier, the
    base output path and the child of each call ([out] is the output path
    after the board's name has been nested into it). *)
Definition childCalls (id out : string) (d : Diagram)
  : list (string * string * Diagram) :=
  map (fun c => (id +:+ ".layers." +:+ Name c, layersOutputPath out d, c))
      (Layers d) ++
  map (fun c => (id +:+ ".scenarios." +:+ Name c, scenariosOutputPath out d, c))
      (Scenarios d) ++
  map (fun c => (id +:+ ".steps." +:+ Name c, stepsOutputPath out d, c))
      (Steps d).

(** The boards of a tree: the tree itself and the boards of its children. *)
Fixpoint boardsOf (d : Diagram) : list Diagram :=
  match d with
  | mkDiagram _ _ _ _ layers scenarios steps =>
      d :: flat_map boardsOf layers ++ flat_map boardsOf scenarios ++
           flat_map boardsOf steps
  end.

(** A loop of [render] that ran to its end: child after child succeeded,
    each starting from the trace the one before left, and [outs] are the
    buffer lists they returned. *)
Inductive childrenRan
    (rec : Diagram -> Trace -> (list bytes * option error) * Trace)
  : list Diagram -> Trace -> list (list bytes) -> Trace -> Prop :=
  | ran_nil (w : Trace) : childrenRan rec [] w [] w
  | ran_cons (dl : Diagram) (rest : list Diagram) (w w1 w2 : Trace)
      (out : list bytes) (outs : list (list bytes)) :
      rec dl w = ((out, None), w1) ->
      childrenRan rec rest w1 outs w2 ->
      childrenRan rec (dl :: rest) w (out :: outs) w2.

(** The collaborators with the error channels of the two image bundlers
    silenced; the bytes the bundlers return are the same. *)
Definition quiet (c : Collaborators) : Collaborators :=
  {| ReadPath := ReadPath c; NewRuler := NewRuler c;
     d2lib_Compile := d2lib_Compile c; HashID := HashID c;
     plugin_Info := plugin_Info c;
     FeatureSupportCheck := FeatureSupportCheck c;
     d2svg_Render := d2svg_Render c; PostProcess := PostProcess c;
     BundleLocal := fun svg => ((BundleLocal c svg).1, None);
     BundleRemote := fun svg => ((BundleRemote c svg).1, None);
     appendix_Append := appendix_Append c; ConvertSVG := ConvertSVG c;
     AddExif := AddExif c; FindViewboxSlice := FindViewboxSlice c;
     ParseFloat := ParseFloat c; ParseKey_isRoot := ParseKey_isRoot c;
     d2animate_Wrap := d2animate_Wrap c;
     MkdirAll_err := MkdirAll_err c; WritePath_err := WritePath_err c;
     AddPDFPage_err := AddPDFPage_err c; Export_err := Export_err c;
     AddSlide_err := AddSlide_err c; SaveTo_err := SaveTo_err c |}.

(** The aggregate of the bundling errors of one run of [_render] on the
    post-processed buffer [svg]: local bundling always, remote bundling
    when [bundle] is set or, on the appendix-extended buffer, when the
    target is a PNG. *)
Definition bundlingError (c : Collaborators) (toPNG bundle : bool)
    (diagram : Diagram) (svg : bytes) : option error :=
  let '(svg1, localErr) := BundleLocal c svg in
  if bundle then multierr_Combine localErr (BundleRemote c svg1).2
  else if toPNG then
    multierr_Combine localErr
      (BundleRemote c (appendix_Append c diagram svg1)).2
  else localErr.

(** ** Concrete collaborators and trees for the examples *)

Definition plainOpts : RenderOpts :=
  {| Pad := 100; Sketch := false; Center := false; ThemeID := 0;
     DarkThemeID := None; MasterID := ""; SetDimensions := false |}.

(** Collaborators that compile every input to [d] and never fail, except
    that the vector renderer fails on the boards whose name satisfies
    [failing] and that the bundlers report [localErr] and [remoteErr]. *)
Definition collaborators (d : Diagram) (failing : string -> bool)
    (localErr remoteErr : option error) : Collaborators :=
  {| ReadPath := fun _ => Ok "";
     NewRuler := None;
     d2lib_Compile := fun _ => Ok d;
     HashID := fun _ => Ok "hash";
     plugin_Info := None;
     FeatureSupportCheck := fun _ => None;
     d2svg_Render := fun board _ =>
       if failing (Name board) then Fail (Err "render failed")
       else Ok ("<svg>" +:+ Name board +:+ "</svg>");
     PostProcess := fun svg => (svg, None);
     BundleLocal := fun svg => (svg, localErr);
     BundleRemote := fun svg => (svg, remoteErr);
     appendix_Append := fun _ svg => svg;
     ConvertSVG := fun svg => Ok svg;
     AddExif := fun png => Ok png;
     FindViewboxSlice := fun _ => ["0"; "0"; "10"; "10"];
     ParseFloat := fun s => Ok (Float64 s);
     ParseKey_isRoot := fun link => String.prefix "root" link;
     d2animate_Wrap := fun _ boards _ _ => Ok (String.concat "" boards);
     MkdirAll_err := fun _ _ => None;
     WritePath_err := fun _ _ _ => None;
     AddPDFPage_err := fun _ _ => None;
     Export_err := fun _ _ => None;
     AddSlide_err := fun _ _ _ => None;
     SaveTo_err := fun _ _ => None |}.

Definition noBoard : string -> bool := fun _ => false.

(** A root with the three layers [a], [b], [c]. *)
Definition threeLayers : Diagram :=
  mkDiagram "" false "" [] [leaf "a"; leaf "b"; leaf "c"] [] [].

(** A folder-only root with the single layer [a]. *)
Definition folderRoot : Diagram :=
  mkDiagram "" true "" [] [leaf "a"] [] [].

(** A root whose only shape links to its layer [a]. *)
Definition linkedTree : Diagram :=
  mkDiagram "" false ""
    [{| ID := "x"; Link := "root.layers.a"; PosX := 0; PosY := 0;
        Width := 10; Height := 10; StrokeWidth := 2 |}]
    [leaf "a"] [] [].

(** The specification's example: an unnamed root with the single layer
    [details]. *)
Definition detailsTree : Diagram :=
  mkDiagram "" false "" [] [leaf "details"] [] [].

(** ** Auxiliary notions of the proofs *)

Fixpoint noSlash (s : string) : bool :=
  match s with
  | EmptyString => true
  | String c rest => negb (Filepath.IsPathSeparator c) && noSlash rest
  end.

(** A real path element: not empty, not [.] and not [..], and without a
    separator. *)
Definition realElem (e : string) : Prop :=
  e <> "" /\ e <> "." /\ e <> ".." /\ noSlash e = true.

(** The shape of the stack of [Clean]: real elements above a run of [..],
    which is empty for a rooted path. *)
Definition cleanStack (r : bool) (out : list string) : Prop :=
  exists (reals : list string) (n : nat),
    out = reals ++ replicate n ".." /\
    Forall realElem reals /\
    (r = true -> n = 0%nat).

Definition rewritten (m : gmap string string) (link : string) : string :=
  default link (m !! link).

Definition indexedAs (c : Diagram) : Prop :=
  forall (dict : gmap string Z) (path : list string),
    buildBoardIdToIndex c (Some dict) path
    = assignIndices (linkIdentifiers (GoStrings.Join (path ++ [Name c]) ".") c)
        dict.

(** Every identifier of a subtree is at least as long as the identifier of
    its root, and the identifiers of the proper descendants are strictly
    longer. *)
Definition noShorter (c : Diagram) : Prop :=
  forall id k, k ∈ linkIdentifiers id c ->
               (String.length id <= String.length k)%nat.

(** An effect of the renderer that hands only boards of [l] to the vector
    renderer. *)
Definition rendersOf (l : list Diagram) (e : event) : Prop :=
  match e with
  | EvRender board _ => board ∈ l
  | EvWrap _ _ _ _ => False
  | _ => True
  end.

Definition addsRendersOf (l : list Diagram) (w w' : Trace) : Prop :=
  exists new, w' = new ++ w /\ Forall (rendersOf l) new.

(** An effect that concerns only the boards of the compiled tree [d] as
    they are: the vector renderer gets boards of [d], the animation merge
    gets [d]. *)
Definition fromTree (d : Diagram) (e : event) : Prop :=
  match e with
  | EvRender board _ => board ∈ boardsOf d
  | EvWrap root _ _ _ => root = d
  | _ => True
  end.

(** A root board with the layers [a] and [a.layers.b], the first of which
    has a layer [b]: the sibling names are distinct, and yet two boards
    have the identifier [root.layers.a.layers.b]. *)
Definition dottedLayer : Diagram :=
  mkDiagram "" false "" []
    [mkDiagram "a" false "" [] [leaf "b"] [] []; leaf "a.layers.b"] [] [].

(** The same with a third layer [c]. *)
Definition dottedLayerThenC : Diagram :=
  mkDiagram "" false "" []
    [mkDiagram "a" false "" [] [leaf "b"] [] []; leaf "a.layers.b"; leaf "c"]
    [] [].

(** The tree [root -> layers:[a], steps:[b]] of the specification. *)
Definition layerAndStep : Diagram :=
  mkDiagram "" false "" [] [leaf "a"] [] [leaf "b"].

(** * Theorems *)

(** ** Strings *)

Lemma append_assoc (a b c : string) : (a +:+ b) +:+ c = a +:+ (b +:+ c).
Proof.
  induction a as [|x a IH]; [done |].
  change (String x ((a +:+ b) +:+ c) = String x (a +:+ (b +:+ c))).
  by rewrite IH.
Qed.

Lemma append_length (a b : string) :
  String.length (a +:+ b) = (String.length a + String.length b)%nat.
Proof.
  induction a as [|x a IH]; [done |].
  change (S (String.length (a +:+ b)) = S (String.length a + String.length b)).
  by rewrite IH.
Qed.

Lemma Join3 (a b c : string) :
  GoStrings.Join [a; b; c] "." = a +:+ "." +:+ b +:+ "." +:+ c.
Proof. reflexivity. Qed.

Lemma Join_snoc (l : list string) (a : string) :
  l <> [] ->
  GoStrings.Join (l ++ [a]) "." = GoStrings.Join l "." +:+ "." +:+ a.
Proof.
  unfold GoStrings.Join.
  induction l as [|x [|y l] IH]; intros Hne; [done | done |].
  change ((x :: y :: l) ++ [a]) with (x :: (y :: l) ++ [a]).
  change (String.concat "." (x :: (y :: l) ++ [a]))
    with (x +:+ "." +:+ String.concat "." ((y :: l) ++ [a])).
  rewrite IH by done.
  change (String.concat "." (x :: y :: l))
    with (x +:+ "." +:+ String.concat "." (y :: l)).
  by rewrite !append_assoc.
Qed.

(** The model of [path/filepath] on rows of the test tables of the Go
    standard library. *)
Example Ext_rows :
  map Filepath.Ext ["path.go"; "path.pb.go"; "a.dir/b"; "a.dir/b.go"; "a.dir/"]
  = [".go"; ".go"; ""; ".go"; ""].
Proof. reflexivity. Qed.

Example Clean_rows :
  map Filepath.Clean
    ["abc//def//ghi"; "abc/./def"; "/../abc"; "abc/def/../../..";
     "../../abc"; "abc/./../def"; "//abc"; ""; "/"; "abc/"]
  = ["abc/def/ghi"; "abc/def"; "/abc"; ".."; "../../abc"; "def"; "/abc";
     "."; "/"; "abc"].
Proof. reflexivity. Qed.

Example Join_rows :
  map Filepath.Join
    [[]; [""]; ["a"]; ["a"; "b"]; ["a"; ""]; [""; "b"]; ["/"; "a"];
     ["/"; ""]; ["a/"; "b"]; ["a/"; ""]; [""; ""]]
  = [""; ""; "a"; "a/b"; "a"; "b"; "/a"; "/"; "a/b"; "a"; ""].
Proof. reflexivity. Qed.

Example Base_rows :
  map Filepath.Base
    [""; "."; "/."; "/"; "////"; "x/"; "abc"; "abc/def"; "a/b/.x"; "a/b/c.x"]
  = ["."; "."; "."; "/"; "/"; "x"; "abc"; "def"; ".x"; "c.x"].
Proof. reflexivity. Qed.

Example Dir_rows :
  map Filepath.Dir
    [""; "."; "/."; "/"; "////"; "/foo"; "x/"; "abc"; "abc/def"; "a/b/.x";
     "a/b/c.x"]
  = ["."; "."; "/"; "/"; "/"; "/"; "x"; "."; "abc"; "a/b"; "a/b"].
Proof. reflexivity. Qed.

Example TrimSuffix_rows :
  GoStrings.TrimSuffix "diagrams/app.svg" ".svg" = "diagrams/app" /\
  GoStrings.TrimSuffix "app" "" = "app" /\
  GoStrings.TrimSuffix "app.svg" ".png" = "app.svg".
Proof. by repeat split. Qed.

(** ** The Link Resolver as a list of entries *)

Section ResolveLoopFacts.
Variable rec : string -> string -> Diagram -> result (gmap string string).
Variable entries : string -> string -> Diagram -> list (string * string).
Variables curr category base : string.

Lemma resolveChildren_entries (boards : list Diagram) :
  Forall (fun c => forall id out,
              rec id out c = Ok (list_to_map (rev (entries id out c)))) boards ->
  forall acc : gmap string string,
    resolveChildren rec curr category base boards acc
    = Ok (list_to_map
            (rev (flat_map
                    (fun c => entries (GoStrings.Join [curr; category; Name c] ".")
                                base c) boards))
          ∪ acc).
Proof.
  induction 1 as [|c boards Hc _ IH]; intros acc; simpl.
  - by rewrite (left_id_L ∅ (∪)).
  - rewrite Hc, IH. f_equal.
    rewrite rev_app_distr, list_to_map_app.
    by rewrite (assoc_L (∪)).
Qed.
End ResolveLoopFacts.

Lemma resolveLinks_entries (d : Diagram) :
  forall id out,
    resolveLinks id out d = Ok (list_to_map (rev (linkEntries id out d))).
Proof.
  induction d as [n f r sh ls sc st IHl IHs IHt] using Diagram_ind.
  intros id out.
  cbn [resolveLinks linkEntries].
  rewrite (resolveChildren_entries _ linkEntries _ _ _ ls IHl).
  rewrite (resolveChildren_entries _ linkEntries _ _ _ sc IHs).
  rewrite (resolveChildren_entries _ linkEntries _ _ _ st IHt).
  f_equal.
  match goal with
  | |- _ = list_to_map (rev (?x :: ?l)) =>
      change (rev (x :: l)) with (rev l ++ [x])
  end.
  rewrite !rev_app_distr, !list_to_map_app.
  cbn [list_to_map foldr].
  rewrite insert_empty.
  rewrite !(assoc_L (∪)).
  reflexivity.
Qed.

Lemma resolveLinks_keys (d : Diagram) :
  forall id out, (linkEntries id out d).*1 = linkIdentifiers id d.
Proof.
  induction d as [n f r sh ls sc st IHl IHs IHt] using Diagram_ind.
  intros id out. cbn [linkEntries linkIdentifiers].
  rewrite fmap_cons, !fmap_app. cbn [fst]. f_equal.
  assert (Hflat : forall (l : list Diagram) (cat base : string),
             Forall (fun c => forall id out,
                         (linkEntries id out c).*1 = linkIdentifiers id c) l ->
             (flat_map (fun c => linkEntries (id +:+ cat +:+ Name c) base c) l).*1
             = flat_map (fun c => linkIdentifiers (id +:+ cat +:+ Name c) c) l).
  { intros l cat base Hl. induction Hl as [|c l Hc _ IH]; [done |].
    cbn [flat_map]. by rewrite fmap_app, Hc, IH. }
  by rewrite !Hflat.
Qed.

(** ** The Pagination Indexer as an assignment along the traversal *)

Lemma assignIndices_app (ids1 ids2 : list string) (dict : gmap string Z) :
  assignIndices (ids1 ++ ids2) dict
  = assignIndices ids2 (assignIndices ids1 dict).
Proof. unfold assignIndices. by rewrite fold_left_app. Qed.

Lemma buildChildren_indices (newPath : list string) (category : string)
    (boards : list Diagram) :
  newPath <> [] ->
  Forall indexedAs boards ->
  forall dict : gmap string Z,
    fold_left (fun dict dl =>
                 buildBoardIdToIndex dl (Some dict) (newPath ++ [category]))
              boards dict
    = assignIndices
        (flat_map (fun c => linkIdentifiers
                              (GoStrings.Join newPath "." +:+
                               ("." +:+ category +:+ ".") +:+ Name c) c) boards)
        dict.
Proof.
  intros Hne Hall. induction Hall as [|c boards Hc _ IH]; intros dict; [done |].
  cbn [fold_left flat_map]. rewrite IH, assignIndices_app, Hc.
  rewrite !Join_snoc by (try done; by destruct newPath).
  by rewrite !append_assoc.
Qed.

Lemma buildBoard_indices (ls sc st : list Diagram) (newPath : list string)
    (dict : gmap string Z) (n : string) f r sh :
  newPath <> [] ->
  Forall indexedAs ls -> Forall indexedAs sc -> Forall indexedAs st ->
  fold_left (fun dict dl =>
               buildBoardIdToIndex dl (Some dict) (newPath ++ ["steps"]))
    st
    (fold_left (fun dict dl =>
                  buildBoardIdToIndex dl (Some dict) (newPath ++ ["scenarios"]))
       sc
       (fold_left (fun dict dl =>
                     buildBoardIdToIndex dl (Some dict) (newPath ++ ["layers"]))
          ls
          (<[GoStrings.Join newPath "." := Z.of_nat (size dict)]> dict)))
  = assignIndices
      (linkIdentifiers (GoStrings.Join newPath ".")
         (mkDiagram n f r sh ls sc st))
      dict.
Proof.
  intros Hne Hl Hs Ht.
  rewrite !buildChildren_indices by done.
  cbn [linkIdentifiers].
  change (?k :: ?l) with ([k] ++ l) at 1.
  by rewrite !assignIndices_app.
Qed.

Lemma buildBoardIdToIndex_Some (d : Diagram) : indexedAs d.
Proof.
  induction d as [n f r sh ls sc st IHl IHs IHt] using Diagram_ind.
  intros dict path. cbn [buildBoardIdToIndex Name].
  apply buildBoard_indices; try done. by destruct path.
Qed.

Lemma buildBoardIdToIndex_root (d : Diagram) :
  buildBoardIdToIndex d None []
  = assignIndices (linkIdentifiers "root" d) ∅.
Proof.
  destruct d as [n f r sh ls sc st]. cbn [buildBoardIdToIndex app].
  change (<[0%nat:="root"]> [n]) with ["root"].
  apply (buildBoard_indices ls sc st ["root"] ∅ n f r sh); [done | ..];
    apply Forall_forall; intros c _; apply buildBoardIdToIndex_Some.
Qed.

Lemma assignIndices_dom (ids : list string) :
  forall dict : gmap string Z,
    dom (assignIndices ids dict) = list_to_set ids ∪ dom dict.
Proof.
  induction ids as [|k ids IH]; intros dict.
  - cbn. set_solver.
  - change (assignIndices (k :: ids) dict)
      with (assignIndices ids (<[k := Z.of_nat (size dict)]> dict)).
    rewrite IH, dom_insert_L. set_solver.
Qed.

Lemma assignIndices_other (ids : list string) (k : string) :
  k ∉ ids ->
  forall dict : gmap string Z, assignIndices ids dict !! k = dict !! k.
Proof.
  induction ids as [|k0 ids IH]; intros Hk dict; [done |].
  change (assignIndices (k0 :: ids) dict)
    with (assignIndices ids (<[k0 := Z.of_nat (size dict)]> dict)).
  apply not_elem_of_cons in Hk as [Hne Hk].
  rewrite IH by done. by rewrite lookup_insert_ne.
Qed.

Lemma assignIndices_lookup (ids : list string) :
  NoDup ids ->
  forall dict : gmap string Z,
    (forall k, k ∈ ids -> dict !! k = None) ->
    forall (i : nat) (k : string),
      ids !! i = Some k ->
      assignIndices ids dict !! k = Some (Z.of_nat (size dict + i)).
Proof.
  induction 1 as [|k0 ids Hk0 Hnd IH]; intros dict Hfresh i k Hi; [done |].
  change (assignIndices (k0 :: ids) dict)
    with (assignIndices ids (<[k0 := Z.of_nat (size dict)]> dict)).
  destruct i as [|i]; cbn in Hi.
  - injection Hi as ->.
    rewrite assignIndices_other by done.
    rewrite lookup_insert_eq. do 2 f_equal. lia.
  - rewrite (IH _) with (i := i); [| | done].
    + rewrite map_size_insert_None by (apply Hfresh; left).
      do 2 f_equal. lia.
    + intros k' Hk'. rewrite lookup_insert_ne by (intros ->; done).
      apply Hfresh. by right.
Qed.

Lemma assignIndices_size (ids : list string) :
  size (assignIndices ids ∅) = size (list_to_set ids : gset string).
Proof.
  rewrite <- size_dom, assignIndices_dom, dom_empty_L.
  by rewrite (right_id_L ∅ (∪)).
Qed.

(** ** Identifiers of a tree *)

Lemma flat_map_length_sum (f : Diagram -> list string) (g : Diagram -> nat)
    (l : list Diagram) (n : nat) :
  Forall (fun c => List.length (f c) = g c) l ->
  (List.length (flat_map f l) + n)%nat = fold_right (fun c n => g c + n)%nat n l.
Proof.
  induction 1 as [|c l Hc _ IH]; [done |].
  cbn [flat_map fold_right]. rewrite length_app, Hc, <- IH. lia.
Qed.

Lemma linkIdentifiers_length (d : Diagram) :
  forall id, List.length (linkIdentifiers id d) = boardCount d.
Proof.
  induction d as [n f r sh ls sc st IHl IHs IHt] using Diagram_ind.
  intros id. cbn [linkIdentifiers boardCount List.length]. f_equal.
  rewrite !length_app.
  rewrite <- (flat_map_length_sum
                (fun c => linkIdentifiers (id +:+ ".layers." +:+ Name c) c)).
  2:{ eapply Forall_impl; [exact IHl | intros c Hc; apply Hc]. }
  rewrite <- (flat_map_length_sum
                (fun c => linkIdentifiers (id +:+ ".scenarios." +:+ Name c) c)).
  2:{ eapply Forall_impl; [exact IHs | intros c Hc; apply Hc]. }
  rewrite <- (flat_map_length_sum
                (fun c => linkIdentifiers (id +:+ ".steps." +:+ Name c) c)).
  2:{ eapply Forall_impl; [exact IHt | intros c Hc; apply Hc]. }
  lia.
Qed.

Lemma children_longer (l : list Diagram) (id cat k : string) :
  Forall noShorter l ->
  cat <> "" ->
  k ∈ flat_map (fun c => linkIdentifiers (id +:+ cat +:+ Name c) c) l ->
  (String.length id < String.length k)%nat.
Proof.
  intros Hl Hcat Hk.
  apply list_elem_of_In, in_flat_map in Hk as (c & Hc & Hk).
  apply list_elem_of_In in Hc, Hk.
  rewrite Forall_forall in Hl.
  specialize (Hl c Hc _ _ Hk).
  rewrite !append_length in Hl.
  destruct cat as [|a cat]; [done |]. cbn [String.length] in Hl. lia.
Qed.

Lemma linkIdentifiers_noShorter (d : Diagram) : noShorter d.
Proof.
  induction d as [n f r sh ls sc st IHl IHs IHt] using Diagram_ind.
  intros id k. cbn [linkIdentifiers].
  rewrite elem_of_cons, !elem_of_app.
  intros [-> | [Hk | [Hk | Hk]]]; [done | ..];
    eapply children_longer in Hk; try done; lia.
Qed.

Lemma linkIdentifiers_head (d : Diagram) (id : string) :
  exists rest, linkIdentifiers id d = id :: rest /\ id ∉ rest.
Proof.
  destruct d as [n f r sh ls sc st]. cbn [linkIdentifiers].
  eexists; split; [reflexivity |].
  rewrite !elem_of_app.
  intros [Hk | [Hk | Hk]];
    eapply children_longer in Hk; try done; try lia;
    apply Forall_forall; intros c _; apply linkIdentifiers_noShorter.
Qed.

(** ** Sets of keys *)

Lemma elem_of_rev_list {A : Type} (x : A) (l : list A) : x ∈ rev l <-> x ∈ l.
Proof. rewrite !list_elem_of_In. symmetry. apply in_rev. Qed.

Lemma elem_of_flat_map {A B : Type} (f : A -> list B) (l : list A) (y : B) :
  y ∈ flat_map f l <-> exists x, x ∈ l /\ y ∈ f x.
Proof.
  rewrite list_elem_of_In, in_flat_map.
  by setoid_rewrite list_elem_of_In.
Qed.

Lemma list_to_set_rev (l : list string) :
  (list_to_set (rev l) : gset string) = list_to_set l.
Proof.
  apply set_eq. intros k. rewrite !elem_of_list_to_set.
  rewrite !list_elem_of_In. symmetry. apply in_rev.
Qed.

Lemma size_list_to_set_le (l : list string) :
  (size (list_to_set l : gset string) <= List.length l)%nat.
Proof.
  induction l as [|k l IH]; [done |].
  cbn [list_to_set List.length].
  pose proof (size_union_alt {[k]} (list_to_set l : gset string)) as Hsz.
  rewrite size_singleton in Hsz.
  assert (list_to_set l ∖ {[k]} ⊆ (list_to_set l : gset string)) as Hsub
    by apply subseteq_difference_l, reflexivity.
  apply subseteq_size in Hsub. lia.
Qed.

Lemma size_list_to_set_NoDup (l : list string) :
  size (list_to_set l : gset string) = List.length l <-> NoDup l.
Proof.
  split; [| apply size_list_to_set].
  induction l as [|k l IH]; intros Hsz; [constructor |].
  cbn [list_to_set List.length] in Hsz.
  pose proof (size_list_to_set_le l) as Hle.
  destruct (decide (k ∈ l)) as [Hin | Hnin].
  - assert ({[k]} ∪ list_to_set l = (list_to_set l : gset string)) as Heq
      by set_solver.
    rewrite Heq in Hsz. lia.
  - constructor; [done |]. apply IH.
    rewrite size_union in Hsz by set_solver.
    rewrite size_singleton in Hsz. lia.
Qed.

Lemma resolveLinks_dom (d : Diagram) (id out : string) :
  exists m, resolveLinks id out d = Ok m /\
            dom m = list_to_set (linkIdentifiers id d).
Proof.
  eexists; split; [apply resolveLinks_entries |].
  rewrite dom_list_to_map_L.
  rewrite <- (resolveLinks_keys d id out).
  apply set_eq. intros k.
  rewrite !elem_of_list_to_set, !list_elem_of_fmap.
  split; intros (y & -> & Hy); exists y; (split; [done |]);
    apply list_elem_of_In; apply list_elem_of_In in Hy;
    first [by apply in_rev | by apply in_rev in Hy].
Qed.

Lemma buildBoardIdToIndex_dom (d : Diagram) :
  dom (buildBoardIdToIndex d None [])
  = list_to_set (linkIdentifiers "root" d).
Proof.
  rewrite buildBoardIdToIndex_root, assignIndices_dom, dom_empty_L.
  by rewrite (right_id_L ∅ (∪)).
Qed.

(** C1 (as stated, refuted): the two key sets agree, but they do not hold one
    entry per board: the root with the layers [a] (which has a layer [b])
    and [a.layers.b] has four boards and both maps have three entries. *)
Lemma C1_one_entry_per_board_fails :
  exists m, resolveLinks "root" "out.svg" dottedLayer = Ok m /\
            dom m = dom (buildBoardIdToIndex dottedLayer None []) /\
            boardCount dottedLayer = 4%nat /\
            size m = 3%nat /\
            size (buildBoardIdToIndex dottedLayer None []) = 3%nat.
Proof.
  eexists. split; [vm_compute; reflexivity |].
  repeat split; vm_compute; reflexivity.
Qed.

(** C1 (amended): for every board tree and output path, [resolveLinks] from
    [root] succeeds and its key set equals the key set of
    [buildBoardIdToIndex]: both are the set of the dot-joined link
    identifiers of the boards.  The identifier list has one element per
    board, and either map has exactly one entry per board if and only if
    these identifiers are pairwise distinct. *)
Theorem C1_resolver_and_indexer_keys (d : Diagram) (outputPath : string) :
  exists linkToOutput,
    resolveLinks "root" outputPath d = Ok linkToOutput /\
    dom linkToOutput = dom (buildBoardIdToIndex d None []) /\
    dom linkToOutput = list_to_set (linkIdentifiers "root" d) /\
    List.length (linkIdentifiers "root" d) = boardCount d /\
    (size linkToOutput = boardCount d <-> NoDup (linkIdentifiers "root" d)) /\
    (size (buildBoardIdToIndex d None []) = boardCount d
     <-> NoDup (linkIdentifiers "root" d)).
Proof.
  destruct (resolveLinks_dom d "root" outputPath) as (m & Hm & Hdom).
  exists m. split; [done |].
  pose proof (buildBoardIdToIndex_dom d) as Hidx.
  pose proof (linkIdentifiers_length d "root") as Hlen.
  repeat split; try congruence.
  - rewrite <- size_dom, Hdom, <- Hlen. apply size_list_to_set_NoDup.
  - rewrite <- size_dom, Hdom, <- Hlen. apply size_list_to_set_NoDup.
  - rewrite <- size_dom, Hidx, <- Hlen. apply size_list_to_set_NoDup.
  - rewrite <- size_dom, Hidx, <- Hlen. apply size_list_to_set_NoDup.
Qed.

(** The amended C1 at the tree [root -> layers:[a], steps:[b]]: distinct
    identifiers, three boards, three entries. *)
Lemma C1_resolver_and_indexer_keys_witness :
  exists m, resolveLinks "root" "out.svg" layerAndStep = Ok m /\
            size m = 3%nat /\
            dom m = dom (buildBoardIdToIndex layerAndStep None []).
Proof.
  destruct (C1_resolver_and_indexer_keys layerAndStep "out.svg")
    as (m & Hm & Hdom & _ & _ & Hsize & _).
  exists m. split; [exact Hm |]. split; [| exact Hdom].
  apply Hsize. vm_compute. repeat constructor; set_solver.
Defined.

(** ** Pagination indices *)

(** C3 (as stated, refuted): on the root with the layers [a] (which has a
    layer [b]), [a.layers.b] and [c], the identifier visited at position 2
    does not receive index 2: the board visited at position 3 has the same
    identifier and overwrites the entry with 3, and [c], visited at
    position 4, receives 3 as well, so that index 2 is skipped and index 3
    is repeated. *)
Lemma C3_dense_indices_fail :
  let ids := linkIdentifiers "root" dottedLayerThenC in
  let boardIdToIndex := buildBoardIdToIndex dottedLayerThenC None [] in
  ids !! 2%nat = Some "root.layers.a.layers.b" /\
  ids !! 3%nat = Some "root.layers.a.layers.b" /\
  ids !! 4%nat = Some "root.layers.c" /\
  boardIdToIndex !! "root.layers.a.layers.b" = Some 3%Z /\
  boardIdToIndex !! "root.layers.c" = Some 3%Z /\
  ~ (forall (i : nat) (k : string),
        ids !! i = Some k -> boardIdToIndex !! k = Some (Z.of_nat i)).
Proof.
  cbv zeta. repeat split; try (vm_compute; reflexivity).
  intros Hall. specialize (Hall 2%nat "root.layers.a.layers.b" eq_refl).
  vm_compute in Hall. discriminate.
Qed.

(** C3 (amended): for every board tree whose boards have pairwise distinct
    link identifiers, [buildBoardIdToIndex] called with a nil dictionary and
    a nil path maps the literal key [root] to 0 whatever the root's name,
    maps the identifier visited at position [i] of the Layers, Scenarios,
    Steps depth-first order to [i], and has no other entry: the indices
    are 0, 1, ..., (number of boards - 1) without gap or repeat. *)
Theorem C3_dense_indices (d : Diagram)
    (Hdistinct : NoDup (linkIdentifiers "root" d)) :
  let ids := linkIdentifiers "root" d in
  let boardIdToIndex := buildBoardIdToIndex d None [] in
  ids !! 0%nat = Some "root" /\
  boardIdToIndex !! "root" = Some 0%Z /\
  (forall (i : nat) (k : string),
      ids !! i = Some k -> boardIdToIndex !! k = Some (Z.of_nat i)) /\
  (forall (k : string) (v : Z),
      boardIdToIndex !! k = Some v ->
      (0 <= v < Z.of_nat (boardCount d))%Z /\ ids !! Z.to_nat v = Some k) /\
  size boardIdToIndex = boardCount d.
Proof.
  cbv zeta.
  destruct (linkIdentifiers_head d "root") as (rest & Hids & _).
  assert (Hpos : forall (i : nat) (k : string),
             linkIdentifiers "root" d !! i = Some k ->
             buildBoardIdToIndex d None [] !! k = Some (Z.of_nat i)).
  { intros i k Hi. rewrite buildBoardIdToIndex_root.
    rewrite (assignIndices_lookup _ Hdistinct ∅ (fun _ _ => lookup_empty _) i k Hi).
    by rewrite map_size_empty. }
  split; [by rewrite Hids |].
  split; [apply (Hpos 0%nat); by rewrite Hids |].
  split; [exact Hpos |].
  split.
  - intros k v Hkv.
    assert (k ∈ linkIdentifiers "root" d) as Hin.
    { apply (elem_of_list_to_set (C := gset string)).
      rewrite <- buildBoardIdToIndex_dom.
      apply elem_of_dom. by exists v. }
    apply list_elem_of_lookup in Hin as [i Hi].
    pose proof (Hpos i k Hi) as Hv. rewrite Hkv in Hv. injection Hv as ->.
    apply lookup_lt_Some in Hi as Hlt.
    rewrite linkIdentifiers_length in Hlt.
    rewrite Nat2Z.id. split; [lia | done].
  - rewrite <- size_dom, buildBoardIdToIndex_dom.
    rewrite <- (linkIdentifiers_length d "root").
    by apply size_list_to_set.
Qed.

(** The amended C3 at the specification's example
    [root -> layers:[a], steps:[b]]: the index is
    [{root:0, root.layers.a:1, root.steps.b:2}]. *)
Lemma C3_dense_indices_witness :
  let boardIdToIndex := buildBoardIdToIndex layerAndStep None [] in
  boardIdToIndex !! "root" = Some 0%Z /\
  boardIdToIndex !! "root.layers.a" = Some 1%Z /\
  boardIdToIndex !! "root.steps.b" = Some 2%Z /\
  size boardIdToIndex = 3%nat.
Proof.
  assert (Hnd : NoDup (linkIdentifiers "root" layerAndStep)).
  { vm_compute. repeat constructor; set_solver. }
  destruct (C3_dense_indices layerAndStep Hnd) as (_ & Hroot & Hpos & _ & Hsize).
  split; [exact Hroot |].
  split; [exact (Hpos 1%nat "root.layers.a" eq_refl) |].
  split; [exact (Hpos 2%nat "root.steps.b" eq_refl) |].
  exact Hsize.
Defined.

(** The root key needs no assumption: it is never overwritten. *)
Lemma buildBoardIdToIndex_root_key (d : Diagram) :
  buildBoardIdToIndex d None [] !! "root" = Some 0%Z.
Proof.
  rewrite buildBoardIdToIndex_root.
  destruct (linkIdentifiers_head d "root") as (rest & -> & Hnin).
  change (assignIndices ("root" :: rest) ∅)
    with (assignIndices rest (<["root" := Z.of_nat (size (∅ : gmap string Z))]> ∅)).
  rewrite assignIndices_other by done.
  by rewrite lookup_insert_eq.
Qed.

(** ** The Link Resolver never fails *)

(** C10: for every board tree, identifier and output path, [resolveLinks]
    returns a map and a nil error. *)
Theorem C10_resolveLinks_total (d : Diagram) (currDiagramPath outputPath : string) :
  exists linkToOutput,
    resolveLinks currDiagramPath outputPath d = Ok linkToOutput.
Proof. eexists. apply resolveLinks_entries. Qed.

(** ** The link rewriter *)

Lemma rangeFind_lookup (entries : list (string * string)) (link : string) :
  rangeFind entries link = (list_to_map entries : gmap string string) !! link.
Proof.
  induction entries as [|[k v] entries IH]; [done |].
  cbn [rangeFind list_to_map foldr]. fold (list_to_map (M := gmap string string) entries).
  destruct (String.eqb_spec link k) as [-> | Hne].
  - by rewrite lookup_insert_eq.
  - rewrite lookup_insert_ne by done. exact IH.
Qed.

Lemma rangeFind_map (m : gmap string string) (link : string) :
  rangeFind (map_to_list m) link = m !! link.
Proof. by rewrite rangeFind_lookup, list_to_map_to_list. Qed.

(** The order in which Go ranges over the map is irrelevant. *)
Lemma rangeFind_any_order (m : gmap string string)
    (entries : list (string * string)) (link : string) :
  entries ≡ₚ map_to_list m -> rangeFind entries link = m !! link.
Proof.
  intros Hperm. rewrite rangeFind_lookup.
  rewrite <- (list_to_map_to_list m).
  f_equal. apply list_to_map_proper; [| done].
  rewrite Hperm. apply NoDup_fst_map_to_list.
Qed.

Lemma relinkShape_rewrite (m : gmap string string) (s : Shape) :
  m !! "" = None ->
  relinkShape m s = rewriteShape (rewritten m) s.
Proof.
  intros Hempty. unfold relinkShape, rewriteShape, rewritten.
  rewrite rangeFind_map. destruct s as [i l x y w h sw]. cbn [Link].
  destruct (decide (l <> "")) as [Hl | Hl].
  - by destruct (m !! l).
  - apply dec_stable in Hl as ->. by rewrite Hempty.
Qed.

Lemma relink_rewrite (m : gmap string string) (d : Diagram) :
  m !! "" = None ->
  relink d m = rewriteLinks (rewritten m) d.
Proof.
  intros Hempty.
  induction d as [n f r sh ls sc st IHl IHs IHt] using Diagram_ind.
  cbn [relink rewriteLinks]. f_equal.
  - apply map_ext. intros s. by apply relinkShape_rewrite.
  - apply map_ext_Forall, IHl.
  - apply map_ext_Forall, IHs.
  - apply map_ext_Forall, IHt.
Qed.

Lemma resolveLinks_no_empty_key (d : Diagram) (out : string) (m : gmap string string) :
  resolveLinks "root" out d = Ok m -> m !! "" = None.
Proof.
  intros Hm.
  destruct (resolveLinks_dom d "root" out) as (m' & Hm' & Hdom).
  rewrite Hm in Hm'. injection Hm' as <-.
  apply not_elem_of_dom. rewrite Hdom, elem_of_list_to_set.
  intros Hin. apply linkIdentifiers_noShorter in Hin. cbn in Hin. lia.
Qed.

Lemma rewriteLinks_erase (f : string -> string) (d : Diagram) :
  rewriteLinks (fun _ => "") (rewriteLinks f d) = rewriteLinks (fun _ => "") d.
Proof.
  induction d as [n fo r sh ls sc st IHl IHs IHt] using Diagram_ind.
  cbn [rewriteLinks]. rewrite !map_map. f_equal.
  - apply map_ext_Forall, IHl.
  - apply map_ext_Forall, IHs.
  - apply map_ext_Forall, IHt.
Qed.

(** What [relink] does to one shape, field by field. *)
Lemma relinkShape_fields (m : gmap string string) (s : Shape) :
  m !! "" = None ->
  (forall v, m !! Link s = Some v -> Link (relinkShape m s) = v) /\
  (m !! Link s = None -> Link (relinkShape m s) = Link s) /\
  ID (relinkShape m s) = ID s /\
  PosX (relinkShape m s) = PosX s /\
  PosY (relinkShape m s) = PosY s /\
  Width (relinkShape m s) = Width s /\
  Height (relinkShape m s) = Height s /\
  StrokeWidth (relinkShape m s) = StrokeWidth s.
Proof.
  intros Hempty. unfold relinkShape. rewrite rangeFind_map.
  destruct (decide (Link s <> "")) as [Hl | Hl].
  - destruct (m !! Link s) as [v|] eqn:Hv; cbn [setLink Link ID PosX PosY
      Width Height StrokeWidth]; repeat split; try done.
    by intros v' [= <-].
  - apply dec_stable in Hl. rewrite Hl, Hempty. repeat split; done.
Qed.

(** The boards of the tree after [relink] are the boards of the tree before
    it, each after [relink], in the same order. *)
Lemma boardsOf_relink (m : gmap string string) (d : Diagram) :
  boardsOf (relink d m) = map (fun b => relink b m) (boardsOf d).
Proof.
  induction d as [n f r sh ls sc st IHl IHs IHt] using Diagram_ind.
  cbn [relink boardsOf map]. f_equal.
  assert (Hloop : forall l : list Diagram,
             Forall (fun d => boardsOf (relink d m)
                              = map (fun b => relink b m) (boardsOf d)) l ->
             flat_map boardsOf (map (fun b => relink b m) l)
             = map (fun b => relink b m) (flat_map boardsOf l)).
  { induction 1 as [|x l Hx _ IH]; [done |].
    cbn [map flat_map]. by rewrite map_app, Hx, IH. }
  by rewrite !map_app, !Hloop.
Qed.

(** C4: for every board tree [d] and every map [linkToOutput] resolved from
    a board tree, [relink] replaces each shape's link that is a key of the
    map by the value of that key, leaves every other link as it is, and
    changes nothing else.  Board by board in the traversal order and shape
    by shape: the board after [relink] has the name, the folder-only flag
    and the fill it had and as many shapes; the shape at each position has
    the value of the key as [Link] when its old link is a key, its old
    link otherwise, and every other field as before.  As a whole, the tree
    after [relink] is the tree before it with the links rewritten, and with
    all links blanked out the two are equal. *)
Theorem C4_relink_rewrites_links_only (resolvedFrom : Diagram)
    (outputPath : string) (d : Diagram) :
  exists linkToOutput,
    resolveLinks "root" outputPath resolvedFrom = Ok linkToOutput /\
    List.length (boardsOf (relink d linkToOutput)) = List.length (boardsOf d) /\
    (forall (i : nat) (b : Diagram),
        boardsOf d !! i = Some b ->
        exists b',
          boardsOf (relink d linkToOutput) !! i = Some b' /\
          Name b' = Name b /\
          IsFolderOnly b' = IsFolderOnly b /\
          RootFill b' = RootFill b /\
          List.length (Shapes b') = List.length (Shapes b) /\
          forall (j : nat) (s : Shape),
            Shapes b !! j = Some s ->
            exists s',
              Shapes b' !! j = Some s' /\
              (forall v, linkToOutput !! Link s = Some v -> Link s' = v) /\
              (linkToOutput !! Link s = None -> Link s' = Link s) /\
              ID s' = ID s /\ PosX s' = PosX s /\ PosY s' = PosY s /\
              Width s' = Width s /\ Height s' = Height s /\
              StrokeWidth s' = StrokeWidth s) /\
    relink d linkToOutput = rewriteLinks (rewritten linkToOutput) d /\
    (forall link v,
        linkToOutput !! link = Some v -> rewritten linkToOutput link = v) /\
    (forall link,
        linkToOutput !! link = None -> rewritten linkToOutput link = link) /\
    rewriteLinks (fun _ => "") (relink d linkToOutput)
    = rewriteLinks (fun _ => "") d.
Proof.
  exists (list_to_map (rev (linkEntries "root" outputPath resolvedFrom))).
  pose proof (resolveLinks_entries resolvedFrom "root" outputPath) as Hm.
  set (m := list_to_map _) in *.
  split; [done |].
  pose proof (resolveLinks_no_empty_key _ _ _ Hm) as Hempty.
  split; [by rewrite boardsOf_relink, length_map |].
  split.
  { intros i b Hb. exists (relink b m). split.
    - rewrite boardsOf_relink. change (map ?f ?l) with (f <$> l).
      by rewrite list_lookup_fmap, Hb.
    - destruct b as [n f r sh ls sc st].
      cbn [relink Name IsFolderOnly RootFill Shapes].
      split; [done |]. split; [done |]. split; [done |].
      split; [by rewrite length_map |].
      intros j s Hs. exists (relinkShape m s). split.
      + change (map ?f ?l) with (f <$> l). by rewrite list_lookup_fmap, Hs.
      + by apply relinkShape_fields. }
  pose proof (relink_rewrite m d Hempty) as Hre.
  split; [done |].
  split; [by intros link v Hl; unfold rewritten; rewrite Hl |].
  split; [by intros link Hl; unfold rewritten; rewrite Hl |].
  rewrite Hre. apply rewriteLinks_erase.
Qed.

(** ** Paths: inserting an element changes the path *)

Lemma append_nil_r (a : string) : a +:+ "" = a.
Proof.
  induction a as [|x a IH]; [done |].
  change (String x (a +:+ "") = String x a). by rewrite IH.
Qed.

Lemma append_inv_r (a b e : string) : a +:+ e = b +:+ e -> a = b.
Proof.
  revert b. induction a as [|x a IH]; intros b Heq.
  - destruct b as [|y b]; [done |]. exfalso.
    apply (f_equal String.length) in Heq.
    rewrite !append_length in Heq. cbn in Heq. lia.
  - destruct b as [|y b].
    + exfalso. apply (f_equal String.length) in Heq.
      rewrite !append_length in Heq. cbn in Heq. lia.
    + change (String x (a +:+ e) = String y (b +:+ e)) in Heq.
      injection Heq as -> Heq. f_equal. by apply IH.
Qed.

Lemma substring_0_app (a b : string) :
  String.substring 0 (String.length a) (a +:+ b) = a.
Proof.
  induction a as [|x a IH]; [by destruct b |].
  change (String x (String.substring 0 (String.length a) (a +:+ b)) = String x a).
  by rewrite IH.
Qed.

Lemma substring_all (b : string) :
  String.substring 0 (String.length b) b = b.
Proof.
  induction b as [|x b IH]; [done |]. cbn. by rewrite IH.
Qed.

Lemma substring_app_r (a b : string) :
  String.substring (String.length a) (String.length b) (a +:+ b) = b.
Proof.
  induction a as [|x a IH]; [apply substring_all | exact IH].
Qed.

Lemma substring_split (j : nat) (s : string) :
  (j <= String.length s)%nat ->
  s = String.substring 0 j s +:+ String.substring j (String.length s - j) s.
Proof.
  revert s. induction j as [|j IH]; intros s Hj.
  - rewrite Nat.sub_0_r, substring_all. by destruct s.
  - destruct s as [|x s]; [cbn in Hj; lia |].
    cbn in Hj. cbn [String.length Nat.sub String.substring].
    change (String x s = String x (String.substring 0 j s +:+
                                   String.substring j (String.length s - j) s)).
    f_equal. apply IH. lia.
Qed.

Lemma TrimSuffix_app (a b : string) : GoStrings.TrimSuffix (a +:+ b) b = a.
Proof.
  unfold GoStrings.TrimSuffix, GoStrings.HasSuffix.
  rewrite append_length.
  replace (String.length a + String.length b - String.length b)%nat
    with (String.length a) by lia.
  rewrite substring_app_r, substring_0_app, String.eqb_refl.
  rewrite andb_true_r.
  destruct (Nat.leb_spec (String.length b) (String.length a + String.length b));
    [done | lia].
Qed.

Lemma Ext_loop_suffix (path : string) (i : nat) :
  (i <= String.length path)%nat ->
  exists stem, path = stem +:+ Filepath.Ext_loop path i.
Proof.
  induction i as [|j IH]; intros Hi.
  - exists path. cbn. by rewrite append_nil_r.
  - cbn [Filepath.Ext_loop].
    destruct (String.get j path) as [ch|]; [| exists path; by rewrite append_nil_r].
    destruct (Filepath.IsPathSeparator ch); [exists path; by rewrite append_nil_r |].
    destruct (Ascii.eqb ch "."); [| apply IH; lia].
    exists (String.substring 0 j path). apply substring_split. lia.
Qed.

Lemma TrimSuffix_Ext (path : string) :
  path = GoStrings.TrimSuffix path (Filepath.Ext path) +:+ Filepath.Ext path.
Proof.
  destruct (Ext_loop_suffix path (String.length path)) as [stem Hstem]; [done |].
  fold (Filepath.Ext path) in Hstem.
  rewrite Hstem at 2. rewrite TrimSuffix_app. exact Hstem.
Qed.

Section CleanFacts.
Import Filepath.

Lemma elements_nonempty (p : string) : elements p <> [].
Proof.
  destruct p as [|ch p]; [done |]. cbn [elements].
  destruct (IsPathSeparator ch); [done |]. by destruct (elements p).
Qed.

Lemma elements_noSlash (p : string) :
  Forall (fun e => noSlash e = true) (elements p).
Proof.
  induction p as [|ch p IH]; [by repeat constructor |].
  cbn [elements]. destruct (IsPathSeparator ch) eqn:Hsep.
  - by constructor.
  - destruct (elements p) as [|e es]; [by repeat constructor; cbn; rewrite Hsep |].
    apply Forall_cons in IH as [He Hes].
    constructor; [| done]. cbn. by rewrite Hsep, He.
Qed.

Lemma elements_single (s : string) : noSlash s = true -> elements s = [s].
Proof.
  induction s as [|ch s IH]; [done |]. cbn [noSlash elements].
  intros [Hch Hs]%andb_true_iff. apply negb_true_iff in Hch.
  by rewrite Hch, IH.
Qed.

Lemma elements_app_sep (a b : string) :
  elements (a +:+ String Separator b) = elements a ++ elements b.
Proof.
  induction a as [|ch a IH]; [done |].
  change (String ch a +:+ String Separator b)
    with (String ch (a +:+ String Separator b)).
  cbn [elements]. rewrite IH.
  destruct (IsPathSeparator ch); [done |].
  pose proof (elements_nonempty a). by destruct (elements a).
Qed.

Lemma elements_concat (l : list string) :
  l <> [] ->
  Forall (fun e => noSlash e = true) l ->
  elements (String.concat "/" l) = l.
Proof.
  induction l as [|e [|e' l] IH]; intros Hne Hall; [done | |].
  - apply Forall_cons in Hall as [He _]. by apply elements_single.
  - apply Forall_cons in Hall as [He Hall].
    change (String.concat "/" (e :: e' :: l))
      with (e +:+ String Separator (String.concat "/" (e' :: l))).
    rewrite elements_app_sep, IH by done.
    by rewrite elements_single.
Qed.

Lemma Clean_step_real (r : bool) (out : list string) (e : string) :
  realElem e -> Clean_step r out e = e :: out.
Proof.
  intros (H1 & H2 & H3 & _). unfold Clean_step.
  by rewrite !decide_False.
Qed.

Lemma Clean_step_stack (r : bool) (out : list string) (e : string) :
  noSlash e = true -> cleanStack r out -> cleanStack r (Clean_step r out e).
Proof.
  intros He (reals & n & -> & Hreals & Hn). unfold Clean_step.
  destruct (decide (e = "")); [by exists reals, n |].
  destruct (decide (e = ".")); [by exists reals, n |].
  destruct (decide (e = "..")) as [-> |].
  - destruct reals as [|top below].
    + destruct n as [|n]; cbn [app replicate].
      * destruct r; [by exists [], 0%nat |].
        by exists [], 1%nat.
      * rewrite decide_True by done.
        destruct r; [by specialize (Hn eq_refl) |].
        by exists [], (S (S n)).
    + cbn [app]. apply Forall_cons in Hreals as [(_ & _ & Htop & _) Hbelow].
      rewrite decide_False by done. by exists below, n.
  - exists (e :: reals), n. split; [done |]. split; [| done].
    constructor; [| done]. by repeat split.
Qed.

Lemma Clean_fold_stack (r : bool) (es out : list string) :
  Forall (fun e => noSlash e = true) es ->
  cleanStack r out ->
  cleanStack r (fold_left (Clean_step r) es out).
Proof.
  intros Hes. revert out.
  induction Hes as [|e es He _ IH]; intros out Hout; [done |].
  cbn [fold_left]. by apply IH, Clean_step_stack.
Qed.

Lemma Clean_fold_reals (r : bool) (es out : list string) :
  Forall realElem es -> fold_left (Clean_step r) es out = rev es ++ out.
Proof.
  intros Hes. revert out.
  induction Hes as [|e es He _ IH]; intros out; [done |].
  cbn [fold_left rev]. rewrite Clean_step_real, IH by done.
  by rewrite <- app_assoc.
Qed.

Lemma Clean_fold_dots (n m : nat) :
  fold_left (Clean_step false) (replicate n "..") (replicate m "..")
  = replicate (n + m) "..".
Proof.
  revert m. induction n as [|n IH]; intros m; [done |].
  cbn [replicate fold_left].
  replace (Clean_step false (replicate m "..") "..")
    with (replicate (S m) "..").
  - rewrite IH. f_equal. lia.
  - unfold Clean_step. rewrite !decide_False, decide_True by done.
    destruct m as [|m]; [done |]. cbn [replicate]. by rewrite decide_True.
Qed.

Lemma rev_replicate (n : nat) (x : string) :
  rev (replicate n x) = replicate n x.
Proof.
  induction n as [|n IH]; [done |].
  cbn [replicate rev]. rewrite IH.
  clear IH. induction n as [|n IH]; [done |]. cbn. by rewrite IH.
Qed.

(** Cleaning the elements of a clean stack gives that stack back. *)
Lemma Clean_replay (r : bool) (out : list string) :
  cleanStack r out -> fold_left (Clean_step r) (rev out) [] = out.
Proof.
  intros (reals & n & -> & Hreals & Hn).
  rewrite rev_app_distr, fold_left_app, rev_replicate.
  assert (fold_left (Clean_step r) (replicate n "..") [] = replicate n "..")
    as ->.
  { destruct r; [by rewrite Hn |].
    pose proof (Clean_fold_dots n 0) as Hdots.
    change (replicate 0 "..") with (@nil string) in Hdots.
    rewrite Hdots. f_equal. lia. }
  rewrite Clean_fold_reals by (by apply Forall_rev).
  by rewrite rev_involutive.
Qed.

Lemma realElem_stack (r : bool) (out : list string) :
  cleanStack r out -> Forall (fun e => noSlash e = true) out.
Proof.
  intros (reals & n & -> & Hreals & _). apply Forall_app. split.
  - eapply Forall_impl; [exact Hreals | by intros e (_ & _ & _ & He)].
  - apply Forall_replicate. reflexivity.
Qed.

(** Joining a real element to a path never gives the path back. *)
Lemma Join_neq (t seg : string) :
  realElem seg -> Join [t; seg] <> t.
Proof.
  intros Hseg. pose proof Hseg as (Hne & _ & _ & Hslash).
  cbn [Join].
  destruct (decide (t <> "")) as [Ht | Ht].
  2:{ apply dec_stable in Ht as ->. rewrite decide_True by done.
      unfold Clean.
      rewrite decide_False by done.
      change (String.concat "/" [seg]) with seg.
      unfold Clean_stack. rewrite elements_single by done.
      cbn [fold_left]. rewrite Clean_step_real by done.
      unfold render_path. cbn [rev app String.concat].
      destruct (rooted seg); [done |].
      change ("" +:+ seg) with seg. done. }
  change (String.concat "/" [t; seg]) with (t +:+ String Separator seg).
  set (path := t +:+ String Separator seg).
  assert (rooted path = rooted t) as Hroot by (by destruct t).
  assert (cleanStack (rooted t)
            (fold_left (Clean_step (rooted t)) (elements t) [])) as Hstack.
  { apply Clean_fold_stack; [apply elements_noSlash |].
    by exists [], 0%nat. }
  set (out := fold_left (Clean_step (rooted t)) (elements t) []) in *.
  assert (Clean path = render_path (rooted t) (seg :: out)) as ->.
  { unfold Clean. rewrite decide_False by (by destruct t).
    unfold Clean_stack. rewrite Hroot. unfold path.
    rewrite elements_app_sep, fold_left_app, elements_single by done.
    cbn [fold_left]. by rewrite Clean_step_real. }
  intros Heq.
  (* the elements of the result, cleaned again, give a longer stack *)
  assert (elements t = (if rooted t then [""] else []) ++ rev (seg :: out))
    as Helems.
  { rewrite <- Heq at 1. unfold render_path.
    assert (elements (String.concat "/" (rev (seg :: out))) = rev (seg :: out))
      as Hconcat.
    { apply elements_concat; [cbn [rev]; by destruct (rev out) |].
      apply Forall_rev. constructor; [done |]. by eapply realElem_stack. }
    destruct (rooted t).
    - change ("/" +:+ String.concat "/" (rev (seg :: out)))
        with (String Separator (String.concat "/" (rev (seg :: out)))).
      cbn [elements]. unfold IsPathSeparator. rewrite Ascii.eqb_refl.
      by rewrite Hconcat.
    - change ("" +:+ String.concat "/" (rev (seg :: out)))
        with (String.concat "/" (rev (seg :: out))).
      by rewrite Hconcat. }
  assert (out = seg :: out) as Habs.
  { unfold out at 1. rewrite Helems, fold_left_app.
    assert (fold_left (Clean_step (rooted t))
              (if rooted t then [""] else []) [] = []) as ->
      by (by destruct (rooted t)).
    cbn [rev]. rewrite fold_left_app, (Clean_replay _ _ Hstack).
    cbn [fold_left]. by rewrite Clean_step_real. }
  apply (f_equal List.length) in Habs. cbn in Habs. lia.
Qed.

End CleanFacts.

Lemma nestPath_neq (p seg : string) : realElem seg -> nestPath p seg <> p.
Proof.
  intros Hseg Heq. unfold nestPath in Heq.
  rewrite (TrimSuffix_Ext p) in Heq at 4.
  apply append_inv_r in Heq. by apply Join_neq in Heq.
Qed.

(** ** Path collapsing *)

Lemma entries_lookup_child (f : Diagram -> list (string * string))
    (boards : list Diagram) (k v : string) :
  (list_to_map (rev (flat_map f boards)) : gmap string string) !! k = Some v ->
  exists c, c ∈ boards /\
            (list_to_map (rev (f c)) : gmap string string) !! k = Some v.
Proof.
  induction boards as [|c boards IH]; [done |].
  cbn [flat_map]. rewrite rev_app_distr, list_to_map_app.
  intros [Hk | [_ Hk]]%lookup_union_Some_raw.
  - destruct (IH Hk) as (c' & Hc' & Hv). exists c'. split; [by right | done].
  - exists c. split; [by left | done].
Qed.

Lemma entries_dom_child (f : Diagram -> list (string * string))
    (boards : list Diagram) (c : Diagram) :
  c ∈ boards ->
  dom (list_to_map (rev (f c)) : gmap string string)
  ⊆ dom (list_to_map (rev (flat_map f boards)) : gmap string string).
Proof.
  intros Hc k. rewrite !dom_list_to_map_L, !elem_of_list_to_set.
  rewrite !list_elem_of_fmap. intros (kv & -> & Hkv). exists kv.
  split; [done |].
  rewrite elem_of_rev_list in Hkv.
  rewrite elem_of_rev_list, elem_of_flat_map. exists c. split; assumption.
Qed.

Lemma childCalls_elem (id out : string) (d : Diagram)
    (cid base : string) (c : Diagram) :
  (cid, base, c) ∈ childCalls id out d <->
  (c ∈ Layers d /\ cid = id +:+ ".layers." +:+ Name c
   /\ base = layersOutputPath out d) \/
  (c ∈ Scenarios d /\ cid = id +:+ ".scenarios." +:+ Name c
   /\ base = scenariosOutputPath out d) \/
  (c ∈ Steps d /\ cid = id +:+ ".steps." +:+ Name c
   /\ base = stepsOutputPath out d).
Proof.
  unfold childCalls. rewrite !elem_of_app, !list_elem_of_fmap.
  split.
  - intros [(x & [= -> -> ->] & Hx) | [(x & [= -> -> ->] & Hx)
                                      | (x & [= -> -> ->] & Hx)]]; auto 10.
  - intros [(Hc & -> & ->) | [(Hc & -> & ->) | (Hc & -> & ->)]];
      [left | right; left | right; right]; by exists c.
Qed.

Lemma collapse_iff (others : bool) (out seg : string) :
  realElem seg ->
  ((if others then nestPath out seg else out) = nestPath out seg
   <-> others = true) /\
  ((if others then nestPath out seg else out) = out <-> others = false).
Proof.
  intros Hseg. pose proof (nestPath_neq out seg Hseg) as Hne.
  destruct others; split; split; try done; intros Heq; congruence.
Qed.

Lemma realElem_layers : realElem "layers".
Proof. by repeat split. Qed.
Lemma realElem_scenarios : realElem "scenarios".
Proof. by repeat split. Qed.
Lemma realElem_steps : realElem "steps".
Proof. by repeat split. Qed.

(** C2: at every board, with [out] the board's output path (the requested
    path with the board's name nested into it), the base output path for
    the children of a category is [out] with the category's name inserted as
    a directory if and only if one of the other two categories is non-empty,
    and is [out] itself if and only if both others are empty.  These are the
    base paths the Link Resolver recurses with: the board's own entry maps
    its identifier to its [boardOutputPath], the keys of each child's
    resolution at its category's base path are keys of the result, and
    every other entry of the result is an entry of such a child resolution.
    For an unnamed root with the single layer [details] and output
    [diagrams/app.svg], [root] maps to [diagrams/app/index.svg] and
    [root.layers.details] to [diagrams/app/details.svg]. *)
Theorem C2_path_collapsing (d : Diagram) (id outputPath : string) :
  let out := namedOutputPath outputPath d in
  let others1 := nonEmpty (Scenarios d) || nonEmpty (Steps d) in
  let others2 := nonEmpty (Layers d) || nonEmpty (Steps d) in
  let others3 := nonEmpty (Layers d) || nonEmpty (Scenarios d) in
  ((layersOutputPath out d = nestPath out "layers" <-> others1 = true) /\
   (layersOutputPath out d = out <-> others1 = false)) /\
  ((scenariosOutputPath out d = nestPath out "scenarios" <-> others2 = true) /\
   (scenariosOutputPath out d = out <-> others2 = false)) /\
  ((stepsOutputPath out d = nestPath out "steps" <-> others3 = true) /\
   (stepsOutputPath out d = out <-> others3 = false)) /\
  (exists linkToOutput,
      resolveLinks id outputPath d = Ok linkToOutput /\
      linkToOutput !! id = Some (boardOutputPath out d) /\
      (forall cid base c,
          (cid, base, c) ∈ childCalls id out d ->
          exists m, resolveLinks cid base c = Ok m /\
                    dom m ⊆ dom linkToOutput) /\
      (forall k v,
          linkToOutput !! k = Some v ->
          (k = id /\ v = boardOutputPath out d) \/
          exists cid base c m,
            (cid, base, c) ∈ childCalls id out d /\
            resolveLinks cid base c = Ok m /\ m !! k = Some v)) /\
  resolveLinks "root" "diagrams/app.svg" detailsTree
  = Ok {[ "root" := "diagrams/app/index.svg";
          "root.layers.details" := "diagrams/app/details.svg" ]}.
Proof.
  cbv zeta.
  split; [apply (collapse_iff _ _ _ realElem_layers) |].
  split; [apply (collapse_iff _ _ _ realElem_scenarios) |].
  split; [apply (collapse_iff _ _ _ realElem_steps) |].
  split; [| by vm_compute].
  eexists. split; [apply resolveLinks_entries |].
  destruct d as [n f r sh ls sc st].
  cbn [linkEntries].
  set (d := mkDiagram n f r sh ls sc st).
  set (out := namedOutputPath outputPath d).
  set (El := flat_map _ ls). set (Es := flat_map _ sc). set (Et := flat_map _ st).
  match goal with
  | |- context [rev (?x :: ?l)] => change (rev (x :: l)) with (rev l ++ [x])
  end.
  rewrite !rev_app_distr, !list_to_map_app.
  cbn [list_to_map foldr]. rewrite insert_empty.
  set (Ml := list_to_map (rev El) : gmap string string).
  set (Ms := list_to_map (rev Es) : gmap string string).
  set (Mt := list_to_map (rev Et) : gmap string string).
  assert (Hfresh : forall (l : list Diagram) (cat base : string),
             cat <> "" ->
             (list_to_map
                (rev (flat_map (fun c => linkEntries (id +:+ cat +:+ Name c) base c) l))
              : gmap string string) !! id = None).
  { intros l cat base Hcat. apply not_elem_of_list_to_map_1.
    intros (kv & Hid & Hkv)%list_elem_of_fmap.
    rewrite elem_of_rev_list, elem_of_flat_map in Hkv.
    destruct Hkv as (c & _ & Hkv).
    assert (kv.1 ∈ linkIdentifiers (id +:+ cat +:+ Name c) c) as Hin.
    { rewrite <- (resolveLinks_keys c _ base). apply list_elem_of_fmap. eauto. }
    apply linkIdentifiers_noShorter in Hin.
    rewrite <- Hid, !append_length in Hin.
    destruct cat; [done | cbn in Hin; lia]. }
  assert (Ml !! id = None) as HMl by (by apply (Hfresh ls ".layers.")).
  assert (Ms !! id = None) as HMs by (by apply (Hfresh sc ".scenarios.")).
  assert (Mt !! id = None) as HMt by (by apply (Hfresh st ".steps.")).
  assert (Hcall : forall (cat : string) (base : string) (l : list Diagram) c k v,
             c ∈ l ->
             (list_to_map (rev (linkEntries (id +:+ cat +:+ Name c) base c))
              : gmap string string) !! k = Some v ->
             exists m, resolveLinks (id +:+ cat +:+ Name c) base c = Ok m /\
                       m !! k = Some v).
  { intros cat base l c k v _ Hv. eexists.
    split; [apply resolveLinks_entries | exact Hv]. }
  split; [| split].
  - rewrite lookup_union_r; [apply lookup_singleton_eq |].
    by rewrite !lookup_union_None.
  - intros cid base c Hc. eexists. split; [apply resolveLinks_entries |].
    apply childCalls_elem in Hc
      as [(Hc & -> & ->) | [(Hc & -> & ->) | (Hc & -> & ->)]]; cbn in Hc.
    + etrans;
        [apply (entries_dom_child
                  (fun c => linkEntries (id +:+ ".layers." +:+ Name c)
                              (layersOutputPath out d) c) ls c Hc) |].
      fold El Ml. rewrite !dom_union_L. set_solver.
    + etrans;
        [apply (entries_dom_child
                  (fun c => linkEntries (id +:+ ".scenarios." +:+ Name c)
                              (scenariosOutputPath out d) c) sc c Hc) |].
      fold Es Ms. rewrite !dom_union_L. set_solver.
    + etrans;
        [apply (entries_dom_child
                  (fun c => linkEntries (id +:+ ".steps." +:+ Name c)
                              (stepsOutputPath out d) c) st c Hc) |].
      fold Et Mt. rewrite !dom_union_L. set_solver.
  - intros k v Hkv.
    apply lookup_union_Some_raw in Hkv as [Hkv | [_ Hkv]];
      [| apply lookup_singleton_Some in Hkv as [<- <-]; by left].
    right.
    apply lookup_union_Some_raw in Hkv as [Hkv | [_ Hkv]];
      [apply lookup_union_Some_raw in Hkv as [Hkv | [_ Hkv]] |];
      apply entries_lookup_child in Hkv as (c & Hc & Hv);
      destruct (Hcall _ _ _ c k v Hc Hv) as (m & Hm & Hmk);
      eexists _, _, c, m; (split; [| split; [exact Hm | exact Hmk]]);
      apply childCalls_elem.
    + right; right. by repeat split.
    + right; left. by repeat split.
    + left. by repeat split.
Qed.

(** * The driver and the renderers *)

(** ** Partial renders *)

(** On every path on which [compile] returns an error, [written] is
    false. *)
Lemma compile_error_not_written (c : Collaborators) (opts : RenderOpts)
    (animateInterval : Z) (inputPath outputPath : string)
    (bundle forceAppendix : bool) (w w' : Trace)
    (out : bytes) (written : bool) (e : error) :
  compile c opts animateInterval inputPath outputPath bundle forceAppendix w
  = ((out, written, Some e), w') ->
  written = false.
Proof.
  unfold compile, compileSwitch, compileSVG.
  repeat (match goal with
          | |- context [match ?x with _ => _ end] => destruct x eqn:?
          | |- context [if ?x then _ else _] => destruct x eqn:?
          end; try congruence).
Qed.

(** C5 (the code at the failing input): with layers [a], [b], [c] under the
    root, output [out.svg] and a renderer that fails on [b], [compile]
    fails with [written = false] although the file of [a] is on disk, and
    [Run] reports a plain failure to compile. *)
Theorem C5_partial_render_not_reported :
  let c := collaborators threeLayers (fun n => bool_decide (n = "b")) None None in
  let r := compile c plainOpts 0 "in.d2" "out.svg" true false [] in
  r.1 = ("", false, Some (Err "render failed")) /\
  files r.2 !! "out/a.svg" = Some ("<svg>a</svg>" +:+ String "010"%char "") /\
  Run_report r = Some "failed to compile".
Proof. cbv zeta. repeat split; vm_compute; reflexivity. Qed.

(** ** Exporting a paginated document *)

Section ExportFacts.
Variable c : Collaborators.






End ExportFacts.



(** ** The order of the returned buffers *)

Lemma renderChildren_ran
    (rec : string -> Diagram -> Trace -> (list bytes * option error) * Trace)
    (base : string) (children : list Diagram) :
  forall (boards boards' : list bytes) (w w' : Trace),
    renderChildren rec base children boards w = ((boards', None), w') ->
    exists outs,
      childrenRan (rec base) children w outs w' /\
      boards' = boards ++ concat outs.
Proof.
  induction children as [|dl rest IH]; intros boards boards' w w' Hrun.
  - cbn in Hrun. injection Hrun as <- <-. exists [].
    split; [constructor | by rewrite app_nil_r].
  - cbn [renderChildren] in Hrun.
    destruct (rec base dl w) as [[out [e|]] w1] eqn:Hdl; [done |].
    apply IH in Hrun as (outs & Hran & ->).
    exists (out :: outs). split; [by econstructor |].
    cbn [concat]. by rewrite app_assoc.
Qed.

(** C7 (as stated, refuted): a folder-only root with one layer renders
    successfully, the layer is rendered and written, and the returned
    sequence is empty: no buffer of the parent is prepended and the buffer
    of the layer is dropped. *)
Lemma C7_folder_only_returns_nothing :
  let c := collaborators folderRoot noBoard None None in
  exists boards w',
    nonEmpty (Layers folderRoot) = true /\
    render c plainOpts true false "out.svg" folderRoot [] = ((boards, None), w') /\
    boards !! 0%nat = None /\
    rendered w' = [leaf "a"] /\
    files w' !! "out/a.svg" = Some ("<svg>a</svg>" +:+ String "010"%char "").
Proof. cbv zeta. eexists _, _. repeat split; vm_compute; reflexivity. Qed.

(** C7 (amended): when [render] succeeds on a board that is not
    folder-only, the three loops over its layers, scenarios and steps ran to
    their end one after the other, the board's own [_render] ran on the
    trace they left, and the returned sequence is the board's buffer
    followed by the buffers the children returned, in that order: the
    board's own bytes are at index 0. *)
Theorem C7_parent_buffer_first (c : Collaborators) (opts : RenderOpts)
    (bundle forceAppendix : bool) (outputPath : string) (d : Diagram)
    (w w' : Trace) (boards : list bytes)
    (Hok : render c opts bundle forceAppendix outputPath d w
           = ((boards, None), w'))
    (Hcontent : IsFolderOnly d = false) :
  let out := namedOutputPath outputPath d in
  let recur := render c opts bundle forceAppendix in
  exists (w0 wl ws wt : Trace) (ls ss ts : list (list bytes)) (own : bytes),
    (w0 = w \/ exists dir, w0 = EvRemoveAll dir :: w) /\
    childrenRan (recur (layersOutputPath out d)) (Layers d) w0 ls wl /\
    childrenRan (recur (scenariosOutputPath out d)) (Scenarios d) wl ss ws /\
    childrenRan (recur (stepsOutputPath out d)) (Steps d) ws ts wt /\
    _render c opts (boardOutputPath out d) bundle forceAppendix d wt
    = ((own, None), w') /\
    boards = own :: (concat ls ++ concat ss ++ concat ts) /\
    boards !! 0%nat = Some own.
Proof.
  cbv zeta. destruct d as [n f r sh ls sc st]. cbn in Hcontent. subst f.
  cbn [render negb] in Hok.
  set (d := mkDiagram n false r sh ls sc st) in *.
  set (out := namedOutputPath outputPath d) in *.
  destruct (_ && bool_decide (out = "-")); [done |].
  match type of Hok with
  | context [renderChildren _ _ ls [] ?t] => set (w0 := t) in *
  end.
  destruct (renderChildren _ _ ls [] w0) as [[bl [e|]] wl] eqn:Hl; [done |].
  destruct (renderChildren _ _ sc bl wl) as [[bs [e|]] ws] eqn:Hs; [done |].
  destruct (renderChildren _ _ st bs ws) as [[bt [e|]] wt] eqn:Ht; [done |].
  destruct (_render c opts _ bundle forceAppendix d wt)
    as [[own [e|]] w1] eqn:Hown; [done |].
  injection Hok as <- <-.
  apply renderChildren_ran in Hl as (ol & Hl & ->).
  apply renderChildren_ran in Hs as (os & Hs & ->).
  apply renderChildren_ran in Ht as (ot & Ht & ->).
  exists w0, wl, ws, wt, ol, os, ot, own.
  split.
  { subst w0. destruct (_ || _); [right; by eexists | by left]. }
  repeat split; try done.
  cbn [app]. by rewrite <- app_assoc.
Qed.

(** The amended C7 at a root with three layers: the root's buffer comes
    first, then those of [a], [b] and [c]. *)
Lemma C7_parent_buffer_first_witness :
  let c := collaborators threeLayers noBoard None None in
  exists boards w',
    render c plainOpts true false "out.svg" threeLayers [] = ((boards, None), w') /\
    IsFolderOnly threeLayers = false /\
    boards !! 0%nat = Some "<svg></svg>" /\
    List.length boards = 4%nat.
Proof.
  cbv zeta.
  set (c := collaborators threeLayers noBoard None None).
  destruct (render c plainOpts true false "out.svg" threeLayers [])
    as [[boards err] w'] eqn:Hrun.
  assert (err = None) as -> by (vm_compute in Hrun; congruence).
  exists boards, w'. split; [reflexivity |]. split; [reflexivity |].
  destruct (C7_parent_buffer_first c plainOpts true false "out.svg"
              threeLayers [] w' boards Hrun eq_refl)
    as (w0 & wl & ws & wt & ls & ss & ts & own & _ & _ & _ & _ & Hown & Hb & H0).
  vm_compute in Hrun. injection Hrun as Hboards _.
  split.
  - transitivity (Some own); [exact H0 |]. f_equal.
    rewrite <- Hboards in Hb. by injection Hb.
  - by rewrite <- Hboards.
Defined.

(** ** Bundling errors *)

(** C8: whenever [_render] succeeds with the error channels of the image
    bundlers silenced, it returns with the real bundlers the same bytes and
    leaves the same trace (so the same file is written when no master id
    suppresses the write), together with the aggregate of the bundling
    errors: the local one, combined with the remote one where remote
    bundling runs.  In [renderPDF] too the bundled bytes are returned
    alongside the aggregate error. *)
Theorem C8_bundling_errors_do_not_block (c : Collaborators) (opts : RenderOpts)
    (outputPath : string) (bundle forceAppendix : bool) (d : Diagram)
    (w w' : Trace) (svg : bytes)
    (Hvalid : _render (quiet c) opts outputPath bundle forceAppendix d w
              = ((svg, None), w')) :
  let toPNG := bool_decide (Filepath.Ext outputPath = ".png") in
  (exists svgPost,
      _render c opts outputPath bundle forceAppendix d w
      = ((svg, bundlingError c toPNG bundle d svgPost), w') /\
      (exists svg0 ropts, d2svg_Render c d ropts = Ok svg0 /\
                          PostProcess c svg0 = (svgPost, None)) /\
      (MasterID opts = "" ->
       exists out w1,
         w' = EvWritePath outputPath out None :: w1 /\
         files w' !! outputPath = Some out)) /\
  (forall pdf boardPath pageMap svg0 svgPost e,
      IsFolderOnly d = false ->
      d2svg_Render c (transparentRoot d) (rasterOpts opts) = Ok svg0 ->
      PostProcess c svg0 = (svgPost, None) ->
      multierr_Combine (BundleLocal c svgPost).2
        (BundleRemote c (BundleLocal c svgPost).1).2 = Some e ->
      renderPDF c opts outputPath d pdf boardPath pageMap w
      = (((BundleRemote c (BundleLocal c svgPost).1).1, Some e),
         EvRender (transparentRoot d) (rasterOpts opts) :: w)).
Proof.
  cbv zeta. split.
  - unfold _render, bundlingError in *.
    cbn [quiet d2svg_Render PostProcess BundleLocal BundleRemote
         appendix_Append ConvertSVG AddExif MkdirAll_err WritePath_err] in Hvalid.
    destruct (d2svg_Render c d _) as [svg0 | e0] eqn:Hrender; [| done].
    destruct (PostProcess c svg0) as [svgPost [e1|]] eqn:Hpost; [done |].
    exists svgPost.
    destruct (BundleLocal c svgPost) as [s1 e1]. cbn [fst snd] in *.
    destruct bundle; cbn [negb] in *.
    + destruct (BundleRemote c s1) as [s2 e2]. cbn [fst snd] in *.
      destruct (bool_decide (Filepath.Ext outputPath = ".png")).
      * rewrite andb_false_r in *.
        destruct (ConvertSVG c _) as [png | ?]; [| done].
        destruct (AddExif c png) as [png' | ?]; [| done].
        destruct (decide (MasterID opts = "")) as [Hm | Hm].
        -- destruct (MkdirAll_err c _ _); [done |].
           destruct (WritePath_err c _ _ _); [done |].
           injection Hvalid as <- <-.
           split; [done |]. split; [eauto |].
           intros _. eexists _, _. split; [done |]. apply lookup_insert_eq.
        -- injection Hvalid as <- <-. split; [done |]. split; [eauto | done].
      * rewrite andb_true_r in *.
        destruct (decide (MasterID opts = "")) as [Hm | Hm].
        -- destruct (MkdirAll_err c _ _); [done |].
           destruct (WritePath_err c _ _ _); [done |].
           injection Hvalid as <- <-.
           split; [done |]. split; [eauto |].
           intros _. eexists _, _. split; [done |]. apply lookup_insert_eq.
        -- injection Hvalid as <- <-. split; [done |]. split; [eauto | done].
    + destruct (bool_decide (Filepath.Ext outputPath = ".png")).
      * rewrite andb_false_r in *.
        destruct (BundleRemote c _) as [s2 e2]. cbn [fst snd] in *.
        destruct (ConvertSVG c _) as [png | ?]; [| done].
        destruct (AddExif c png) as [png' | ?]; [| done].
        destruct (decide (MasterID opts = "")) as [Hm | Hm].
        -- destruct (MkdirAll_err c _ _); [done |].
           destruct (WritePath_err c _ _ _); [done |].
           injection Hvalid as <- <-.
           split; [done |]. split; [eauto |].
           intros _. eexists _, _. split; [done |]. apply lookup_insert_eq.
        -- injection Hvalid as <- <-. split; [done |]. split; [eauto | done].
      * rewrite andb_true_r in *.
        destruct (decide (MasterID opts = "")) as [Hm | Hm].
        -- destruct (MkdirAll_err c _ _); [done |].
           destruct (WritePath_err c _ _ _); [done |].
           injection Hvalid as <- <-.
           split; [done |]. split; [eauto |].
           intros _. eexists _, _. split; [done |]. apply lookup_insert_eq.
        -- injection Hvalid as <- <-. split; [done |]. split; [eauto | done].
  - intros pdf boardPath pageMap svg0 svgPost e Hcontent Hrender Hpost Hagg.
    destruct d as [n f r sh ls sc st]. cbn in Hcontent. subst f.
    cbn [renderPDF negb]. unfold pdfPage.
    change (transparentRoot (mkDiagram n false r sh ls sc st))
      with (mkDiagram n false "transparent" sh ls sc st) in *.
    rewrite Hrender, Hpost.
    destruct (BundleLocal c svgPost) as [s1 e1]. cbn [fst snd] in *.
    destruct (BundleRemote c s1) as [s2 e2]. cbn [fst snd] in *.
    rewrite Hagg. by destruct pdf as [[]|].
Qed.

(** C8 with a local and a remote bundling failure: the SVG is returned and
    written, the two errors are combined. *)
Lemma C8_bundling_errors_do_not_block_witness :
  let c := collaborators (leaf "") noBoard
             (Some (Err "local")) (Some (Err "remote")) in
  exists w',
    _render c plainOpts "out.svg" true false (leaf "") []
    = (("<svg></svg>", Some (Combined (Err "local") (Err "remote"))), w') /\
    files w' !! "out.svg" = Some ("<svg></svg>" +:+ String "010"%char "").
Proof.
  cbv zeta.
  set (c := collaborators (leaf "") noBoard
              (Some (Err "local")) (Some (Err "remote"))).
  destruct (_render (quiet c) plainOpts "out.svg" true false (leaf "") [])
    as [[svg err] w'] eqn:Hquiet.
  assert (err = None /\ svg = "<svg></svg>") as [-> ->]
    by (vm_compute in Hquiet; split; congruence).
  destruct (C8_bundling_errors_do_not_block c plainOpts "out.svg" true false
              (leaf "") [] w' "<svg></svg>" Hquiet)
    as [(svgPost & Hrun & (svg0 & ropts & Hrender & Hpost) & Hwritten) _].
  exists w'. split.
  - rewrite Hrun. reflexivity.
  - vm_compute in Hquiet. injection Hquiet as <-. reflexivity.
Defined.

(** ** Animated output keeps the links *)

Lemma rendersOf_mono (l l' : list Diagram) (e : event) :
  l ⊆ l' -> rendersOf l e -> rendersOf l' e.
Proof. intros Hsub. destruct e; cbn; auto. Qed.

Lemma addsRendersOf_refl (l : list Diagram) (w : Trace) : addsRendersOf l w w.
Proof. by exists []. Qed.

Lemma addsRendersOf_trans (l1 l2 l : list Diagram) (w w1 w2 : Trace) :
  l1 ⊆ l -> l2 ⊆ l ->
  addsRendersOf l1 w w1 -> addsRendersOf l2 w1 w2 -> addsRendersOf l w w2.
Proof.
  intros H1 H2 (n1 & -> & Hn1) (n2 & -> & Hn2).
  exists (n2 ++ n1). split; [by rewrite app_assoc |].
  apply Forall_app. split.
  - eapply Forall_impl; [exact Hn2 | intros e; by apply rendersOf_mono].
  - eapply Forall_impl; [exact Hn1 | intros e; by apply rendersOf_mono].
Qed.

Lemma addsRendersOf_weaken (l l' : list Diagram) (w w' : Trace) :
  l ⊆ l' -> addsRendersOf l w w' -> addsRendersOf l' w w'.
Proof.
  intros Hsub (new & -> & Hnew). exists new. split; [done |].
  eapply Forall_impl; [exact Hnew | intros e; by apply rendersOf_mono].
Qed.

Lemma addsRendersOf_step (l : list Diagram) (w w1 w2 : Trace) :
  addsRendersOf l w w1 -> addsRendersOf l w1 w2 -> addsRendersOf l w w2.
Proof. by apply addsRendersOf_trans. Qed.

Lemma addsRendersOf_cons (l : list Diagram) (w : Trace) (e : event) :
  rendersOf l e -> addsRendersOf l w (e :: w).
Proof. intros He. exists [e]. split; [done | by constructor]. Qed.

Section RenderEvents.
Variable c : Collaborators.

Lemma _render_events (opts : RenderOpts) (outputPath : string)
    (bundle forceAppendix : bool) (d : Diagram) (w : Trace) :
  addsRendersOf [d] w (_render c opts outputPath bundle forceAppendix d w).2.
Proof.
  assert (Hrender : forall ropts, rendersOf [d] (EvRender d ropts))
    by (intros; apply list_elem_of_singleton; done).
  unfold _render.
  repeat (match goal with
          | |- context [match ?x with _ => _ end] => destruct x eqn:?
          | |- context [if ?x then _ else _] => destruct x eqn:?
          end; cbn [snd]);
    repeat (first
      [ by apply addsRendersOf_cons
      | eapply (addsRendersOf_trans [d] [d] [d]); [done | done | |];
        [| by apply addsRendersOf_cons ] ]).
Qed.

Lemma renderChildren_events
    (rec : string -> Diagram -> Trace -> (list bytes * option error) * Trace)
    (base : string) (children : list Diagram) :
  Forall (fun dl => forall out w,
              addsRendersOf (boardsOf dl) w (rec out dl w).2) children ->
  forall boards w,
    addsRendersOf (flat_map boardsOf children) w
      (renderChildren rec base children boards w).2.
Proof.
  induction 1 as [|dl rest Hdl _ IH]; intros boards w.
  - apply addsRendersOf_refl.
  - cbn [renderChildren flat_map]. specialize (Hdl base w).
    destruct (rec base dl w) as [[out [e|]] w1]; cbn [snd] in *.
    + destruct Hdl as (new & -> & Hnew). exists new. split; [done |].
      eapply Forall_impl; [exact Hnew |].
      intros ev. apply rendersOf_mono. set_solver.
    + eapply addsRendersOf_trans; [| | exact Hdl | apply IH]; set_solver.
Qed.

Lemma render_events (d : Diagram) :
  forall opts bundle forceAppendix outputPath w,
    addsRendersOf (boardsOf d) w
      (render c opts bundle forceAppendix outputPath d w).2.
Proof.
  induction d as [n f r sh ls sc st IHl IHs IHt] using Diagram_ind.
  intros opts bundle forceAppendix outputPath w.
  cbn [render boardsOf].
  set (d := mkDiagram n f r sh ls sc st).
  set (out := namedOutputPath outputPath d).
  set (all := d :: _).
  destruct (_ && bool_decide (out = "-")); [apply addsRendersOf_refl |].
  match goal with
  | |- context [renderChildren _ _ ls [] ?t] => set (w0 := t)
  end.
  assert (addsRendersOf all w w0) as H0.
  { subst w0. destruct (_ || _);
      [by apply addsRendersOf_cons | apply addsRendersOf_refl]. }
  assert (Hloop : forall children base boards w1,
             Forall (fun d => forall opts bundle forceAppendix outputPath w,
                 addsRendersOf (boardsOf d) w
                   (render c opts bundle forceAppendix outputPath d w).2)
               children ->
             addsRendersOf (flat_map boardsOf children) w1
               (renderChildren (render c opts bundle forceAppendix) base
                  children boards w1).2).
  { intros children base boards w1 Hch. apply renderChildren_events.
    eapply Forall_impl; [exact Hch |]. intros dl Hdl o w2. apply Hdl. }
  pose proof (Hloop ls (layersOutputPath out d) [] w0 IHl) as H1.
  apply (addsRendersOf_weaken _ all) in H1; [| subst all; set_solver].
  pose proof (addsRendersOf_step _ _ _ _ H0 H1) as H01.
  destruct (renderChildren _ _ ls [] w0) as [[bl [e|]] wl]; cbn [snd] in *;
    [exact H01 |].
  pose proof (Hloop sc (scenariosOutputPath out d) bl wl IHs) as H2.
  apply (addsRendersOf_weaken _ all) in H2; [| subst all; set_solver].
  pose proof (addsRendersOf_step _ _ _ _ H01 H2) as H02.
  destruct (renderChildren _ _ sc bl wl) as [[bs [e|]] ws]; cbn [snd] in *;
    [exact H02 |].
  pose proof (Hloop st (stepsOutputPath out d) bs ws IHt) as H3.
  apply (addsRendersOf_weaken _ all) in H3; [| subst all; set_solver].
  pose proof (addsRendersOf_step _ _ _ _ H02 H3) as H03.
  destruct (renderChildren _ _ st bs ws) as [[bt [e|]] wt]; cbn [snd] in *;
    [exact H03 |].
  destruct f; cbn [negb snd]; [exact H03 |].
  pose proof (_render_events opts (boardOutputPath out d) bundle
                forceAppendix d wt) as Hown.
  apply (addsRendersOf_weaken _ all) in Hown; [| subst all; set_solver].
  pose proof (addsRendersOf_step _ _ _ _ H03 Hown) as H04.
  by destruct (_render c opts _ bundle forceAppendix d wt)
    as [[own [e|]] w1].
Qed.
End RenderEvents.

Lemma rendersOf_fromTree (d : Diagram) (e : event) :
  rendersOf (boardsOf d) e -> fromTree d e.
Proof. by destruct e. Qed.

(** C9: when the animation interval is positive and the output is neither
    a PDF nor a PPTX, every board [compile] hands to the vector renderer is
    a board of the tree as the compiler produced it, and the tree handed to
    the animation merge is that tree: no link has been rewritten. *)
Theorem C9_animation_keeps_links (c : Collaborators) (opts opts' : RenderOpts)
    (animateInterval : Z) (inputPath outputPath : string)
    (bundle forceAppendix : bool) (w : Trace) (d : Diagram)
    (Hanimated : (0 < animateInterval)%Z)
    (Hsvg : Filepath.Ext outputPath <> ".pdf"
            /\ Filepath.Ext outputPath <> ".pptx")
    (Hfront : compileFront c opts animateInterval inputPath = Ok (d, opts')) :
  exists new,
    (compile c opts animateInterval inputPath outputPath bundle
       forceAppendix w).2 = new ++ w /\
    Forall (fromTree d) new.
Proof.
  destruct Hsvg as [Hpdf Hpptx].
  unfold compile. rewrite Hfront. unfold compileSwitch.
  rewrite !decide_False by done. unfold compileSVG.
  destruct (Z.leb_spec animateInterval 0) as [? | _]; [lia |].
  destruct (Z.ltb_spec 0 animateInterval) as [_ | ?]; [| lia].
  destruct (render_events c d opts' bundle forceAppendix outputPath w)
    as (new & Hnew & Hall).
  assert (Forall (fromTree d) new) as Hfrom
    by (eapply Forall_impl; [exact Hall | apply rendersOf_fromTree]).
  destruct (render c opts' bundle forceAppendix outputPath d w)
    as [[boards [e|]] w1]; cbn [snd] in *; subst w1.
  { by exists new. }
  destruct boards as [|out boards]; [by exists new |].
  assert (Hwrap : fromTree d (EvWrap d (out :: boards) opts' animateInterval))
    by done.
  destruct (d2animate_Wrap c d (out :: boards) opts' animateInterval)
    as [merged | e].
  2:{ exists (EvWrap d (out :: boards) opts' animateInterval :: new).
      split; [done | by constructor]. }
  destruct (MkdirAll_err c _ _).
  { eexists (_ :: _ :: new). split; [reflexivity |]. by repeat constructor. }
  destruct (WritePath_err c _ _ _);
    (eexists (_ :: _ :: _ :: new); split; [reflexivity |];
     by repeat constructor).
Qed.

(** C9 at a tree whose root links to its layer [a], animated every second:
    the root reaches the renderer with the link [root.layers.a]. *)
Lemma C9_animation_keeps_links_witness :
  let c := collaborators linkedTree noBoard None None in
  exists new,
    (compile c plainOpts 1000 "in.d2" "out.svg" true false []).2 = new ++ [] /\
    Forall (fromTree linkedTree) new /\
    rendered new = [linkedTree; leaf "a"].
Proof.
  cbv zeta.
  destruct (C9_animation_keeps_links
              (collaborators linkedTree noBoard None None)
              plainOpts (withMasterID plainOpts "hash") 1000 "in.d2" "out.svg"
              true false [] linkedTree)
    as (new & Hnew & Hall).
  - reflexivity.
  - split; vm_compute; discriminate.
  - reflexivity.
  - exists new. split; [exact Hnew |]. split; [exact Hall |].
    rewrite app_nil_r in Hnew. rewrite <- Hnew. vm_compute. reflexivity.
Defined.

(** Without animation the same root reaches the renderer with its link
    rewritten to the output path of the layer. *)
Example relinked_without_animation :
  let c := collaborators linkedTree noBoard None None in
  map Link
    (flat_map Shapes
       (rendered (compile c plainOpts 0 "in.d2" "out.svg" true false []).2))
  = ["out/a.svg"].
Proof. vm_compute. reflexivity. Qed.
